(** * topoGen: the topology generation pipeline

    A shallow embedding of [src/topoGen.cpp] (the driver [main]) together with
    models of the collaborating components whose sources are not part of the
    driver file (beta-skeleton filter, density filter, connectivity pruner,
    triangulation contract).

    Layout: definitions first (C++ scalars, configuration, the run monad, the
    collaborator interface, the stages of [main], the planar graph model), then
    the lemmas and theorems. *)

From Stdlib Require Import ZArith QArith Floats String List Lia.
From stdpp Require Import base list sorting gmap strings.

Set Default Proof Using "Type".
#[local] Set Warnings "-inexact-float".

(* ===================================================================== *)
(** ** C++ scalars *)
(* ===================================================================== *)

Module Cxx.

(** [int] is 32 bits wide, two's complement. *)
Definition INT_MAX : Z := 2 ^ 31 - 1.
Definition INT_MIN : Z := - 2 ^ 31.

Definition wrap_int (z : Z) : Z := (z + 2 ^ 31) `mod` 2 ^ 32 - 2 ^ 31.

(** [++i] on an [int]. *)
Definition int_incr (i : Z) : Z := wrap_int (i + 1).

(** [constexpr double EARTH_RADIUS_KM = 6371.000785;] *)
Definition EARTH_RADIUS_KM : float := 6371.000785%float.

End Cxx.

(* ===================================================================== *)
(** ** Configuration and command line *)
(* ===================================================================== *)

(** Modelled from the spec: the [Config] class (config/Config.hpp) is not in
    the driver file.  The spec describes a hierarchical configuration with
    named, typed parameters, where a missing or invalid parameter is fatal.
    A configuration is a map from dotted paths to typed values; [subConfig]
    descends by extending the path prefix; a typed [get] fails when the entry
    is absent or of another type. *)
Inductive ConfigValue :=
| CfgBool (b : bool)
| CfgUInt (n : N)
| CfgDouble (d : float)
| CfgString (s : string).

Record Config := {
  cfg_entries : gmap string ConfigValue;
  cfg_path : string;
}.

Definition root_config (m : gmap string ConfigValue) : Config :=
  {| cfg_entries := m; cfg_path := "" |}.

Definition subConfig (c : Config) (key : string) : Config :=
  {| cfg_entries := cfg_entries c; cfg_path := cfg_path c +:+ key +:+ "." |}.

Definition cfg_lookup (c : Config) (key : string) : option ConfigValue :=
  cfg_entries c !! (cfg_path c +:+ key).

Definition get_bool (c : Config) (key : string) : option bool :=
  match cfg_lookup c key with Some (CfgBool b) => Some b | _ => None end.

Definition get_uint (c : Config) (key : string) : option N :=
  match cfg_lookup c key with Some (CfgUInt n) => Some n | _ => None end.

Definition get_double (c : Config) (key : string) : option float :=
  match cfg_lookup c key with Some (CfgDouble d) => Some d | _ => None end.

Definition get_string (c : Config) (key : string) : option string :=
  match cfg_lookup c key with Some (CfgString s) => Some s | _ => None end.

(** The two clustering passes of [main] (lines 79-88 and 90-99). *)
Inductive Pass := Neighbour | Metropolis.

Definition minPts_key (p : Pass) : string :=
  match p with
  | Neighbour => "neighbourCluster.minPts"
  | Metropolis => "metropolisCluster.minPts"
  end.

Definition maxClusterDistance_key (p : Pass) : string :=
  match p with
  | Neighbour => "neighbourCluster.maxClusterDistance"
  | Metropolis => "metropolisCluster.maxClusterDistance"
  end.

Inductive KmlStage := KmlDelaunay | KmlGabriel.

(** One record of the simulation-node JSON file: [node["id"].asInt()],
    [node["latitude"].asDouble()], [node["longitude"].asDouble()]. *)
Record SimulationNode := {
  sim_id : Z;
  sim_latitude : float;
  sim_longitude : float;
}.

(** Every call [main] makes on a collaborator, in the order it is made. *)
Inductive Event :=
| EvImportCities
| EvImportCitiesFromFile
| EvOptics (p : Pass)
| EvImportLandingPoints
| EvImportWaypoints
| EvAssignIds
| EvDelaunay
| EvKml (s : KmlStage)
| EvBetaSkeleton
| EvDensityFilter
| EvDegreeQuery (usOnly : bool)
| EvImportCableEdges
| EvPrune
| EvGraphOutput
| EvNewSimTopo
| EvSimAddNode (n : SimulationNode)
| EvJsonWrite (pretty : bool) (file : string).

Inductive Failure :=
| AssertionFailed (cond : string)
| ConfigError (key : string)
| CollaboratorFailed (e : Event).

Inductive Outcome (A : Type) :=
| Done (a : A)
| Abort (f : Failure).
Arguments Done {A} a.
Arguments Abort {A} f.

Definition is_done {A} (o : Outcome A) : bool :=
  match o with Done _ => true | Abort _ => false end.

Definition is_abort {A} (o : Outcome A) : bool := negb (is_done o).

(** The KML colours and file names read at lines 123-135. *)
Record KmlConfig := {
  pincolor : string;
  pinAlpha : float;
  edgecolor : string;
  edgeAlpha : float;
  seacablecolor : string;
  seacableAlpha : float;
  seacablePinColor : string;
  seacablePinAlpha : float;
  delaunayFile : string;
  gabrielFile : string;
}.

(* ===================================================================== *)
(** ** The types of the collaborators *)
(* ===================================================================== *)

(** The driver never looks inside these: the seed of the command line, what a
    geographic node carries besides its identifier, the importer's private
    cable data, and the two topologies. *)
Class Domain := {
  Seed : Type;
  NodeData : Type;
  CableData : Type;
  BaseTopology : Type;
  SimulationTopology : Type;
}.

Section Types.
Context `{Domain}.

Record CMDArgs := {
  getSeed : Seed;
  kmlOutputEnabled : bool;
  graphOutputEnabled : bool;
  jsonOutputEnabled : bool;
  simNodesJSONFile : string;
  jsonOutputFile : string;
}.

(** A [GeographicNode]: [main] only ever calls [setId] on it. *)
Record GeographicNode := {
  node_id : Z;
  node_data : NodeData;
}.

Definition setId (i : Z) (n : GeographicNode) : GeographicNode :=
  {| node_id := i; node_data := node_data n |}.

(** [Locations]: a sequence of pointers to nodes (the loop of lines
    107-110 calls [node->setId] on each element), so the objects live in a
    heap and the container holds their addresses, in iteration order. *)
Record Locations := {
  heap : gmap positive GeographicNode;
  order : list positive;
}.

(** The [NodeImporter] owns the location store ([getLocations] hands out a
    shared pointer to it) and its own cable data. *)
Record NodeImporter := {
  locations : Locations;
  cables : CableData;
}.

(** What an output file holds: which writer produced it, from which graph. *)
Inductive OutputFile :=
| OutEmpty
| OutKml (g : BaseTopology) (style : KmlConfig)
| OutNodes (g : BaseTopology)
| OutEdges (g : BaseTopology)
| OutJson (pretty : bool) (g : BaseTopology).

(** The mutable world of a run: the importer with the shared location store,
    and the files written so far (latest first). *)
Record World := {
  nodeImport : NodeImporter;
  files : list (string * OutputFile);
}.

(** A run: how it ended, the world it left, the collaborator calls it made. *)
Record Run (A : Type) := {
  outcome : Outcome A;
  final : World;
  trace : list Event;
}.

Definition M (A : Type) : Type := World → Run A.

End Types.

Arguments outcome {_ _} _.
Arguments final {_ _} _.
Arguments trace {_ _} _.

(** The collaborators themselves.  A result [None] is a fatal failure inside
    the collaborator (the spec's geometric, external-data and I/O errors). *)
Class Collaborators `{Domain} := {
  importCities : Seed → NodeImporter → option NodeImporter;
  importCitiesFromFile : NodeImporter → option NodeImporter;
  (** [OPTICSFilter(locations, eps, minPts, threshold)] followed by
      [filter(seed)]: acts on the shared location store. *)
  OPTICSFilter_filter : float → N → float → Seed → Locations → option Locations;
  importSeacableLandingPoints : NodeImporter → option NodeImporter;
  importSubmarineCableEdgesWaypoints : NodeImporter → option NodeImporter;
  (** [new DelaunayGraphCreator] on the store, [create()], [getTopology()]. *)
  Delaunay_create : Locations → option BaseTopology;
  filterBetaSkeletonEdges : BaseTopology → option BaseTopology;
  filterByLength : BaseTopology → option BaseTopology;
  getHighestDegreeNodes : nat → bool → BaseTopology → list (float * float);
  importSubmarineCableEdges :
    NodeImporter → BaseTopology → option (NodeImporter * BaseTopology);
  prune : BaseTopology → option BaseTopology;
  (** [std::ofstream f(name); f.good()]. *)
  ofstream_good : string → bool;
  SimulationTopology_new : BaseTopology → option SimulationTopology;
  (** [simTopo->addNode]: the simulation topology holds the base topology. *)
  addNode :
    SimulationNode → SimulationTopology * BaseTopology →
    option (SimulationTopology * BaseTopology);
  (** [Json::Reader::parse] on the file of that name, then [root["nodes"]]:
      [None] when parsing fails. *)
  Json_parse_nodes : string → option (list SimulationNode);
}.

(* ===================================================================== *)
(** ** Runs: state, failure and the trace of collaborator calls *)
(* ===================================================================== *)

Section RunMonad.
Context `{Domain}.

Definition ret {A} (a : A) : M A :=
  λ w, {| outcome := Done a; final := w; trace := [] |}.

(** Sequencing: a failure ends the run where it happened. *)
Definition bind {A B} (m : M A) (k : A → M B) : M B :=
  λ w,
    let r := m w in
    match outcome r with
    | Done a =>
        let r' := k a (final r) in
        {| outcome := outcome r'; final := final r';
           trace := trace r ++ trace r' |}
    | Abort f => {| outcome := Abort f; final := final r; trace := trace r |}
    end.

Definition abort {A} (f : Failure) : M A :=
  λ w, {| outcome := Abort f; final := w; trace := [] |}.

Definition emit (e : Event) : M unit :=
  λ w, {| outcome := Done tt; final := w; trace := [e] |}.

(** [assert(cond)]: the process aborts when [cond] is false. *)
Definition cxx_assert (cond : bool) (text : string) : M unit :=
  if cond then ret tt else abort (AssertionFailed text).

(** [config->get<T>(key)]. *)
Definition config_get {A} (get : Config → string → option A)
    (c : Config) (key : string) : M A :=
  match get c key with
  | Some a => ret a
  | None => abort (ConfigError (cfg_path c +:+ key))
  end.

(** A call on a collaborator: it is recorded, then it returns or fails. *)
Definition call {A} (e : Event) (r : option A) : M A :=
  bind (emit e) (λ _,
    match r with
    | Some a => ret a
    | None => abort (CollaboratorFailed e)
    end).

Definition get_importer : M NodeImporter :=
  λ w, {| outcome := Done (nodeImport w); final := w; trace := [] |}.

Definition set_importer (ni : NodeImporter) : M unit :=
  λ w, {| outcome := Done tt;
          final := {| nodeImport := ni; files := files w |};
          trace := [] |}.

(** The location store is shared between [main], the importer and the
    clustering filters: reading and writing it goes through the importer. *)
Definition get_locations : M Locations :=
  bind get_importer (λ ni, ret (locations ni)).

Definition set_locations (l : Locations) : M unit :=
  bind get_importer (λ ni,
    set_importer {| locations := l; cables := cables ni |}).

Definition write_file (name : string) (content : OutputFile) : M unit :=
  λ w, {| outcome := Done tt;
          final := {| nodeImport := nodeImport w;
                      files := (name, content) :: files w |};
          trace := [] |}.

End RunMonad.

#[global] Instance M_ret `{Domain} : MRet M := @ret _.
#[global] Instance M_bind `{Domain} : MBind M := λ A B k m, bind m k.

(* ===================================================================== *)
(** ** The driver: [main] of src/topoGen.cpp, stage by stage *)
(* ===================================================================== *)

Section Driver.
Context `{Collaborators}.
Variable config : Config.
Variable args : CMDArgs.

(** Lines 67-73: READ CITY POSITIONS ON EARTH SURFACE. *)
Definition read_city_positions : M unit :=
  debug ← config_get get_bool config "debug.enable";
  nodeImport ← get_importer;
  nodeImport ←
    (if Bool.eqb debug false
     then call EvImportCities (importCities (getSeed args) nodeImport)
     else call EvImportCitiesFromFile (importCitiesFromFile nodeImport));
  set_importer nodeImport.

(** Lines 79-88 and 90-99: one clustering pass.  Both asserts come before
    the filter is constructed and run. *)
Definition optics_pass (p : Pass) : M unit :=
  minPts ← config_get get_uint config (minPts_key p);
  cxx_assert (0 <? minPts)%N "minPts > 0";;
  maxClusterDistance ← config_get get_double config (maxClusterDistance_key p);
  cxx_assert (0 <? maxClusterDistance)%float "maxClusterDistance > 0.0";;
  let eps := (maxClusterDistance / Cxx.EARTH_RADIUS_KM)%float in
  locations ← get_locations;
  locations ←
    call (EvOptics p)
      (OPTICSFilter_filter eps minPts (0.8 * eps)%float (getSeed args) locations);
  set_locations locations.

(** Lines 79-99: FILTER LOCATIONS WITH OPTICS. *)
Definition filter_locations_with_optics : M unit :=
  optics_pass Neighbour;;
  optics_pass Metropolis.

(** Lines 102-103: the cable landing points and waypoints join the store. *)
Definition import_seacable_nodes : M unit :=
  nodeImport ← get_importer;
  nodeImport ← call EvImportLandingPoints (importSeacableLandingPoints nodeImport);
  set_importer nodeImport;;
  nodeImport ← get_importer;
  nodeImport ← call EvImportWaypoints (importSubmarineCableEdgesWaypoints nodeImport);
  set_importer nodeImport.

(** Lines 106-110: [int nodeId = 0; for (auto node : locations)
    { node->setId(nodeId); ++nodeId; }].  Returns the heap and the final
    counter. *)
Fixpoint setId_loop (nodes : list positive) (nodeId : Z)
    (h : gmap positive GeographicNode) : gmap positive GeographicNode * Z :=
  match nodes with
  | [] => (h, nodeId)
  | node :: rest =>
      setId_loop rest (Cxx.int_incr nodeId) (alter (setId nodeId) node h)
  end.

Definition reset_ids (l : Locations) : Locations :=
  {| heap := (setId_loop (order l) 0 (heap l)).1; order := order l |}.

Definition reset_node_ids : M unit :=
  emit EvAssignIds;;
  locations ← get_locations;
  set_locations (reset_ids locations).

(** Lines 116-117: CREATE DELAUNAY TRIANGULATION. *)
Definition create_delaunay_triangulation : M BaseTopology :=
  locations ← get_locations;
  call EvDelaunay (Delaunay_create locations).

(** Lines 123-135: KML CONFIG. *)
Definition kml_config : M KmlConfig :=
  let kmlConfig := subConfig config "kml_graph_output" in
  pincolor ← config_get get_string kmlConfig "pins.color";
  pinAlpha ← config_get get_double kmlConfig "pins.alpha";
  edgecolor ← config_get get_string kmlConfig "edges.color";
  edgeAlpha ← config_get get_double kmlConfig "edges.alpha";
  seacablecolor ← config_get get_string kmlConfig "seacable.color";
  seacableAlpha ← config_get get_double kmlConfig "seacable.alpha";
  seacablePinColor ← config_get get_string kmlConfig "seacablepins.color";
  seacablePinAlpha ← config_get get_double kmlConfig "seacablepins.alpha";
  delaunayFile ← config_get get_string kmlConfig "delaunayFile";
  gabrielFile ← config_get get_string kmlConfig "gabrielFile";
  mret {| pincolor := pincolor; pinAlpha := pinAlpha;
          edgecolor := edgecolor; edgeAlpha := edgeAlpha;
          seacablecolor := seacablecolor; seacableAlpha := seacableAlpha;
          seacablePinColor := seacablePinColor;
          seacablePinAlpha := seacablePinAlpha;
          delaunayFile := delaunayFile; gabrielFile := gabrielFile |}.

(** Lines 139-147 and 183-191: KML OUTPUT. *)
Definition kml_output (s : KmlStage) (kml : KmlConfig) (topo : BaseTopology)
    (file : string) : M unit :=
  if kmlOutputEnabled args
  then emit (EvKml s);; write_file file (OutKml topo kml)
  else mret tt.

(** Lines 153-155: CREATE BETA SKELETON FROM DELAUNAY TRIANGULATION. *)
Definition create_beta_skeleton (baseTopo : BaseTopology) : M BaseTopology :=
  call EvBetaSkeleton (filterBetaSkeletonEdges baseTopo).

(** Lines 160-164: APPLY DENSITY FILTER. *)
Definition apply_density_filter (baseTopo : BaseTopology) : M BaseTopology :=
  enableLengthFilter ← config_get get_bool config "lengthFilter.enable";
  if Bool.eqb enableLengthFilter true
  then call EvDensityFilter (filterByLength baseTopo)
  else mret baseTopo.

(** Lines 171-174: IMPORT SUBMARINE CABLES (after two read-only degree
    queries whose results are not used). *)
Definition import_submarine_cables (baseTopo : BaseTopology) : M BaseTopology :=
  emit (EvDegreeQuery false);;
  let degNodesExclSubmarine := getHighestDegreeNodes 2 false baseTopo in
  emit (EvDegreeQuery true);;
  let degNodesExclSubmarineUSonly := getHighestDegreeNodes 2 true baseTopo in
  nodeImport ← get_importer;
  r ← call EvImportCableEdges (importSubmarineCableEdges nodeImport baseTopo);
  set_importer r.1;;
  mret r.2.

(** Line 177: only use greatest component of baseTopo. *)
Definition prune_stage (baseTopo : BaseTopology) : M BaseTopology :=
  call EvPrune (prune baseTopo).

(** [std::ofstream f(name)]: a stream that opens creates or empties the
    file; the result is [f.good()]. *)
Definition open_ofstream (name : string) : M bool :=
  if ofstream_good name
  then write_file name OutEmpty;; mret true
  else mret false.

(** Lines 197-211: GRAPH OUTPUT. *)
Definition graph_output (baseTopo : BaseTopology) : M unit :=
  if graphOutputEnabled args
  then
    let simpleGraphConfig := subConfig config "simple_graph_output" in
    nodeFileName ← config_get get_string simpleGraphConfig "nodeFile";
    nodeFile_good ← open_ofstream nodeFileName;
    cxx_assert nodeFile_good "nodeFile.good()";;
    edgeFileName ← config_get get_string simpleGraphConfig "edgeFile";
    edgeFile_good ← open_ofstream edgeFileName;
    cxx_assert edgeFile_good "edgeFile.good()";;
    emit EvGraphOutput;;
    write_file nodeFileName (OutNodes baseTopo);;
    write_file edgeFileName (OutEdges baseTopo)
  else mret tt.

(** Lines 231-236: insert each node. *)
Fixpoint add_simulation_nodes (nodes : list SimulationNode)
    (topos : SimulationTopology * BaseTopology)
    : M (SimulationTopology * BaseTopology) :=
  match nodes with
  | [] => mret topos
  | node :: rest =>
      topos ← call (EvSimAddNode node) (addNode node topos);
      add_simulation_nodes rest topos
  end.

(** Lines 217-239: DEAL WITH SIMULATION NODES. *)
Definition deal_with_simulation_nodes (baseTopo : BaseTopology)
    : M (SimulationTopology * BaseTopology) :=
  simTopo ← call EvNewSimTopo (SimulationTopology_new baseTopo);
  if (0 <? String.length (simNodesJSONFile args))%nat
  then
    let filePath := simNodesJSONFile args in
    match Json_parse_nodes filePath with
    | None => abort (AssertionFailed "parsed == true")
    | Some nodes => add_simulation_nodes nodes (simTopo, baseTopo)
    end
  else mret (simTopo, baseTopo).

(** Lines 254-261: json command line arg has precedence over json config
    parameter. *)
Definition choose_json_file_name (jsonFileNameCLI jsonFileNameConfig : string)
    : string :=
  if (0 <? String.length jsonFileNameCLI)%nat
  then jsonFileNameCLI
  else jsonFileNameConfig.

(** Lines 244-268: GRAPH OUTPUT (JSON). *)
Definition json_output (baseTopo : BaseTopology) : M unit :=
  if jsonOutputEnabled args
  then
    let jsonFileNameCLI := jsonOutputFile args in
    let jsonGraphConfig := subConfig config "json_graph_output" in
    jsonFileNameConfig ← config_get get_string jsonGraphConfig "filename";
    let jsonFileName := choose_json_file_name jsonFileNameCLI jsonFileNameConfig in
    pretty ← config_get get_bool jsonGraphConfig "pretty_print";
    emit (EvJsonWrite pretty jsonFileName);;
    write_file jsonFileName (OutJson pretty baseTopo)
  else mret tt.

(** Lines 67-103: every node source joins the location store. *)
Definition merge_node_sources : M unit :=
  read_city_positions;;
  filter_locations_with_optics;;
  import_seacable_nodes.

(** Lines 116-270: from the triangulation to the outputs.  The base topology
    is one shared object that the stages mutate in place; here each stage
    hands the current graph on. *)
Definition build_and_output : M (BaseTopology * SimulationTopology) :=
  delGen ← create_delaunay_triangulation;
  kml ← kml_config;
  kml_output KmlDelaunay kml delGen (delaunayFile kml);;
  baseTopo ← create_beta_skeleton delGen;
  baseTopo ← apply_density_filter baseTopo;
  baseTopo ← import_submarine_cables baseTopo;
  baseTopo ← prune_stage baseTopo;
  kml_output KmlGabriel kml baseTopo (gabrielFile kml);;
  graph_output baseTopo;;
  topos ← deal_with_simulation_nodes baseTopo;
  json_output topos.2;;
  mret (topos.2, topos.1).

(** [main], lines 58-271. *)
Definition main : M (BaseTopology * SimulationTopology) :=
  merge_node_sources;;
  reset_node_ids;;
  build_and_output.

End Driver.

(* ===================================================================== *)
(** ** The topology graph and the graph stages, in the plane *)
(* ===================================================================== *)

Module Topo.

Definition point : Type := Q * Q.

Record GeoNode := {
  gn_id : Z;
  gn_pos : point;
}.

Section Graph.
(** The weight of an edge (the spec: great-circle distance) is opaque to
    the graph stages. *)
Variable W : Type.

Record Edge := {
  e_src : Z;
  e_dst : Z;
  e_weight : W;
}.

(** Modelled from the spec: the [TopologyGraph] of section 3 (topo/Graph.hpp
    is not in the driver file): the node set by identifier and a set of
    undirected weighted edges between identifiers. *)
Record TopologyGraph := {
  g_nodes : list GeoNode;
  g_edges : list Edge;
}.

Definition node_ids (g : TopologyGraph) : list Z := map gn_id (g_nodes g).

Definition endpoints (e : Edge) : Z * Z := (e_src e, e_dst e).

(** The edge joins [u] and [v], in either direction. *)
Definition joins (e : Edge) (u v : Z) : bool :=
  (e_src e =? u)%Z && (e_dst e =? v)%Z || (e_src e =? v)%Z && (e_dst e =? u)%Z.

Definition memZ (x : Z) (l : list Z) : bool := existsb (Z.eqb x) l.

Fixpoint node_pos (nodes : list GeoNode) (id : Z) : option point :=
  match nodes with
  | [] => None
  | n :: rest => if (gn_id n =? id)%Z then Some (gn_pos n) else node_pos rest id
  end.

(** Removing the edge between [u] and [v] from the graph. *)
Definition erase_edge (u v : Z) (g : TopologyGraph) : TopologyGraph :=
  {| g_nodes := g_nodes g;
     g_edges := List.filter (λ e, negb (joins e u v)) (g_edges g) |}.

(** *** Beta-skeleton filter (spec 4.4) *)

Definition sqdist (p q : point) : Q :=
  ((p.1 - q.1) * (p.1 - q.1) + (p.2 - q.2) * (p.2 - q.2))%Q.

(** Centre of one circle of the lune of [u], [v]: the point
    [(1 - β/2) u + (β/2) v]; the other circle swaps [u] and [v]. *)
Definition lune_centre (β : Q) (u v : point) : point :=
  ((1 - β / 2) * u.1 + (β / 2) * v.1, (1 - β / 2) * u.2 + (β / 2) * v.2)%Q.

(** [p] lies within the circle of centre [c] and squared radius [r2]; a
    point on the circle counts (the spec's unit-square scenario says the
    diagonal's circle contains the two opposite corners, which lie on it). *)
Definition in_disc (c : point) (r2 : Q) (p : point) : bool :=
  Qle_bool (sqdist p c) r2.

(** The lune of the edge [u]-[v]: both circles have radius [β · d(u,v) / 2]. *)
Definition in_lune (β : Q) (u v p : point) : bool :=
  let r2 := ((β / 2) * (β / 2) * sqdist u v)%Q in
  in_disc (lune_centre β u v) r2 p && in_disc (lune_centre β v u) r2 p.

(** Some third node lies within the lune of the edge. *)
Definition lune_occupied (β : Q) (nodes : list GeoNode) (e : Edge) : bool :=
  match node_pos nodes (e_src e), node_pos nodes (e_dst e) with
  | Some u, Some v =>
      existsb
        (λ n, negb (gn_id n =? e_src e)%Z && negb (gn_id n =? e_dst e)%Z
              && in_lune β u v (gn_pos n))
        nodes
  | _, _ => false
  end.

Fixpoint examine_edges (occupied : Edge → bool) (todo : list Edge)
    (g : TopologyGraph) : TopologyGraph :=
  match todo with
  | [] => g
  | e :: rest =>
      examine_edges occupied rest
        (if occupied e then erase_edge (e_src e) (e_dst e) g else g)
  end.

(** Modelled from the spec: [BetaSkeletonFilter::filterBetaSkeletonEdges]
    (topo/base_topo/BetaSkeletonFilter.hpp is not in the driver file).
    Spec 4.4: examine every triangulation edge (u, v) and retain it only if
    no third node lies within the lune region defined by the two circles
    of radius β · distance(u, v) / 2; edges failing this test are
    removed. *)
Definition filterBetaSkeletonEdges (β : Q) (g : TopologyGraph) : TopologyGraph :=
  examine_edges (lune_occupied β (g_nodes g)) (g_edges g) g.

(** *** Density edge filter (spec 4.5) *)

(** The population-density judgement of an edge, from the positions of
    its end points and its length: the density data and the rule are
    external. *)
Variable implausible : option point → option point → W → bool.

Definition edge_implausible (nodes : list GeoNode) (e : Edge) : bool :=
  implausible (node_pos nodes (e_src e)) (node_pos nodes (e_dst e)) (e_weight e).

(** Modelled from the spec: [PopulationDensityFilter::filterByLength]
    (topo/base_topo/PopulationDensityFilter.hpp is not in the driver
    file).  Spec 4.5: for each surviving edge, evaluate the density
    context against the edge's physical length; remove the edge if its
    length is implausible given that density context. *)
Definition filterByLength (g : TopologyGraph) : TopologyGraph :=
  examine_edges (edge_implausible (g_nodes g)) (g_edges g) g.

(** *** Connectivity pruner (spec 4.7) *)

Definition adjacent (g : TopologyGraph) (u v : Z) : bool :=
  existsb (λ e, joins e u v) (g_edges g).

(** The nodes of the graph outside [S] that have a neighbour in [S]. *)
Definition frontier (g : TopologyGraph) (S : list Z) : list Z :=
  List.filter
    (λ v, negb (memZ v S) && existsb (λ u, adjacent g u v) S)
    (node_ids g).

Definition grow (g : TopologyGraph) (S : list Z) : list Z := S ++ frontier g S.

Fixpoint grow_n (g : TopologyGraph) (n : nat) (S : list Z) : list Z :=
  match n with
  | O => S
  | Datatypes.S n' => grow_n g n' (grow g S)
  end.

(** The connected component of [v]: as many rounds as there are nodes. *)
Definition component (g : TopologyGraph) (v : Z) : list Z :=
  grow_n g (length (g_nodes g)) [v].

Fixpoint components_from (g : TopologyGraph) (todo : list Z)
    (found : list (list Z)) : list (list Z) :=
  match todo with
  | [] => found
  | v :: rest =>
      if existsb (memZ v) found
      then components_from g rest found
      else components_from g rest (found ++ [component g v])
  end.

(** The connected components, in the order of their first nodes. *)
Definition connectedComponents (g : TopologyGraph) : list (list Z) :=
  components_from g (node_ids g) [].

(** The largest by node count; of several largest ones, the first. *)
Fixpoint largest (cs : list (list Z)) : list Z :=
  match cs with
  | [] => []
  | c :: rest =>
      let m := largest rest in
      if (length m <=? length c)%nat then c else m
  end.

Definition restrict (keep : list Z) (g : TopologyGraph) : TopologyGraph :=
  {| g_nodes := List.filter (λ n, memZ (gn_id n) keep) (g_nodes g);
     g_edges :=
       List.filter (λ e, memZ (e_src e) keep && memZ (e_dst e) keep) (g_edges g) |}.

(** Modelled from the spec: [BaseTopology::prune] (topo/Graph.hpp is not in
    the driver file).  Spec 4.7: computes connected components of the
    current graph and retains only the single largest (by node count);
    all other nodes and their incident edges are discarded.  Ties go to
    the component whose first node comes first in the node order. *)
Definition prune (g : TopologyGraph) : TopologyGraph :=
  restrict (largest (connectedComponents g)) g.

(** The number of edges at a node. *)
Definition degree (g : TopologyGraph) (v : Z) : nat :=
  length (List.filter (λ e, (e_src e =? v)%Z || (e_dst e =? v)%Z) (g_edges g)).

(** Nodes joined by a path of edges. *)
Definition connected (g : TopologyGraph) : relation Z :=
  rtc (λ u v, adjacent g u v = true).

(** The invariant of spec section 3: the nodes are identified by distinct
    identifiers and the end points of every edge are nodes of the graph. *)
Definition wf_graph (g : TopologyGraph) : Prop :=
  NoDup (node_ids g)
  ∧ ∀ e, e ∈ g_edges g → e_src e ∈ node_ids g ∧ e_dst e ∈ node_ids g.

(** The sets the growth of a component passes through: no repetition, only
    nodes of the graph. *)
Definition good (g : TopologyGraph) (S : list Z) : Prop :=
  NoDup S ∧ ∀ x, x ∈ S → x ∈ node_ids g.

End Graph.

Arguments e_src {W} _.
Arguments e_dst {W} _.
Arguments e_weight {W} _.
Arguments g_nodes {W} _.
Arguments g_edges {W} _.
Arguments node_ids {W} _.
Arguments endpoints {W} _.
Arguments joins {W} _ _ _.
Arguments erase_edge {W} _ _ _.
Arguments lune_occupied {W} _ _ _.
Arguments examine_edges {W} _ _ _.
Arguments filterBetaSkeletonEdges {W} _ _.
Arguments edge_implausible {W} _ _ _.
Arguments filterByLength {W} _ _.
Arguments adjacent {W} _ _ _.
Arguments frontier {W} _ _.
Arguments grow {W} _ _.
Arguments grow_n {W} _ _ _.
Arguments component {W} _ _.
Arguments components_from {W} _ _ _.
Arguments connectedComponents {W} _.
Arguments restrict {W} _ _.
Arguments prune {W} _.
Arguments degree {W} _ _.
Arguments connected {W} _ _ _.
Arguments wf_graph {W} _.
Arguments good {W} _ _.

End Topo.

(* ===================================================================== *)
(** ** The triangulation contract (spec 4.3) *)
(* ===================================================================== *)

Module Triangulation.
Import Topo.

(** A face, by the identifiers of its corners. *)
Definition triangle : Type := Z * Z * Z.

Definition Qlt_bool (x y : Q) : bool := negb (Qle_bool y x).

(** Twice the signed area of the triangle [p q r]. *)
Definition orient (p q r : point) : Q :=
  ((q.1 - p.1) * (r.2 - p.2) - (q.2 - p.2) * (r.1 - p.1))%Q.

Definition det3 (a1 a2 a3 b1 b2 b3 c1 c2 c3 : Q) : Q :=
  (a1 * (b2 * c3 - b3 * c2) - a2 * (b1 * c3 - b3 * c1)
   + a3 * (b1 * c2 - b2 * c1))%Q.

Definition lift (p d : point) : Q :=
  ((p.1 - d.1) * (p.1 - d.1) + (p.2 - d.2) * (p.2 - d.2))%Q.

(** [d] lies strictly inside the circle through [a], [b], [c]. *)
Definition in_circumcircle (a b c d : point) : bool :=
  Qlt_bool 0
    (orient a b c *
     det3 (a.1 - d.1) (a.2 - d.2) (lift a d)
          (b.1 - d.1) (b.2 - d.2) (lift b d)
          (c.1 - d.1) (c.2 - d.2) (lift c d))%Q.

Definition corners (nodes : list GeoNode) (t : triangle)
    : option (point * point * point) :=
  let '(a, b, c) := t in
  match node_pos nodes a, node_pos nodes b, node_pos nodes c with
  | Some pa, Some pb, Some pc => Some (pa, pb, pc)
  | _, _, _ => None
  end.

(** The corners are nodes of the set and not collinear. *)
Definition proper (nodes : list GeoNode) (t : triangle) : bool :=
  match corners nodes t with
  | Some (pa, pb, pc) => negb (Qeq_bool (orient pa pb pc) 0)
  | None => false
  end.

(** Empty-circumcircle property of one face. *)
Definition empty_circumcircle (nodes : list GeoNode) (t : triangle) : bool :=
  match corners nodes t with
  | Some (pa, pb, pc) =>
      forallb (λ n, negb (in_circumcircle pa pb pc (gn_pos n))) nodes
  | None => false
  end.

Definition same_side (x y u v : Z) : bool :=
  (x =? u)%Z && (y =? v)%Z || (x =? v)%Z && (y =? u)%Z.

(** The corner of [t] opposite its side [u]-[v], when it has that side. *)
Definition opposite (u v : Z) (t : triangle) : option Z :=
  let '(a, b, c) := t in
  if same_side a b u v then Some c
  else if same_side b c u v then Some a
  else if same_side a c u v then Some b
  else None.

(** The side [u]-[v] of a face with third corner [w] is either on the outer
    boundary (no other face has it, and every node lies on [w]'s side of it:
    the boundary is the convex hull) or shared with exactly one other face
    lying across it. *)
Definition side_ok (nodes : list GeoNode) (T : list triangle) (u v w : Z) : bool :=
  match node_pos nodes u, node_pos nodes v, node_pos nodes w with
  | Some pu, Some pv, Some pw =>
      match List.filter (λ x, negb (x =? w)%Z) (omap (opposite u v) T) with
      | [] =>
          forallb
            (λ n, Qle_bool 0 (orient pu pv (gn_pos n) * orient pu pv pw)%Q)
            nodes
      | [x] =>
          match node_pos nodes x with
          | Some px => Qlt_bool (orient pu pv px * orient pu pv pw)%Q 0
          | None => false
          end
      | _ => false
      end
  | _, _, _ => false
  end.

Definition sides_ok (nodes : list GeoNode) (T : list triangle) (t : triangle) : bool :=
  let '(a, b, c) := t in
  side_ok nodes T a b c && side_ok nodes T b c a && side_ok nodes T a c b.

Definition is_corner (id : Z) (t : triangle) : bool :=
  let '(a, b, c) := t in (id =? a)%Z || (id =? b)%Z || (id =? c)%Z.

(** Modelled from the spec: the contract of the triangulator
    ([DelaunayGraphCreator], topo/base_topo/DelaunayGraphCreator.hpp, is not
    in the driver file).  Spec 4.3: a triangulation such that every face's
    circumscribing circle contains no other point of the set and the outer
    boundary forms the convex hull; one node per input point. *)
Definition is_delaunay (nodes : list GeoNode) (T : list triangle) : bool :=
  forallb (proper nodes) T
  && forallb (empty_circumcircle nodes) T
  && forallb (sides_ok nodes T) T
  && forallb (λ n, existsb (is_corner (gn_id n)) T) nodes.

Fixpoint pairs_of (l : list Z) : list (Z * Z) :=
  match l with
  | [] => []
  | a :: rest => map (pair a) rest ++ pairs_of rest
  end.

(** Every face over the identifiers [l], each once. *)
Fixpoint triples_of (l : list Z) : list triangle :=
  match l with
  | [] => []
  | a :: rest => map (λ bc, (a, bc.1, bc.2)) (pairs_of rest) ++ triples_of rest
  end.

Fixpoint sublists {A} (l : list A) : list (list A) :=
  match l with
  | [] => [[]]
  | x :: rest => map (cons x) (sublists rest) ++ sublists rest
  end.

(** All sets of faces over the nodes that meet the contract. *)
Definition delaunay_triangulations (nodes : list GeoNode) : list (list triangle) :=
  List.filter (is_delaunay nodes) (sublists (triples_of (map gn_id nodes))).

Definition triangle_sides (t : triangle) : list (Z * Z) :=
  let '(a, b, c) := t in [(a, b); (b, c); (a, c)].

Definition triangulation_edges (T : list triangle) : list (Z * Z) :=
  remove_dups (concat (map triangle_sides T)).

(** Modelled from the spec: the output of the triangulator.  Spec 4.3: one
    node per input point, one edge per triangulation edge, weighted by
    distance ([wt] gives the weight from the two positions). *)
Definition triangulation_graph {W} (wt : point → point → W)
    (nodes : list GeoNode) (T : list triangle) : TopologyGraph W :=
  {| g_nodes := nodes;
     g_edges :=
       omap
         (λ uv,
            match node_pos nodes uv.1, node_pos nodes uv.2 with
            | Some pu, Some pv =>
                Some {| e_src := uv.1; e_dst := uv.2; e_weight := wt pu pv |}
            | _, _ => None
            end)
         (triangulation_edges T) |}.

(** Four points forming a unit square, numbered around it. *)
Definition unit_square : list GeoNode :=
  [ {| gn_id := 0; gn_pos := (0, 0)%Q |};
    {| gn_id := 1; gn_pos := (1, 0)%Q |};
    {| gn_id := 2; gn_pos := (1, 1)%Q |};
    {| gn_id := 3; gn_pos := (0, 1)%Q |} ].

Definition square_boundary : list (Z * Z) := [(0, 1); (1, 2); (2, 3); (0, 3)]%Z.

End Triangulation.

(* ===================================================================== *)
(** ** The calls of a complete run *)
(* ===================================================================== *)

Section Schedule.
Context `{Collaborators}.
Variable config : Config.
Variable args : CMDArgs.

Definition flag (key : string) : bool := default false (get_bool config key).

Definition sched_cities : list Event :=
  [if Bool.eqb (flag "debug.enable") false
   then EvImportCities else EvImportCitiesFromFile].

Definition sched_merge : list Event :=
  sched_cities
  ++ [EvOptics Neighbour; EvOptics Metropolis;
      EvImportLandingPoints; EvImportWaypoints].

Definition sched_kml (s : KmlStage) : list Event :=
  if kmlOutputEnabled args then [EvKml s] else [].

Definition sched_density : list Event :=
  if Bool.eqb (flag "lengthFilter.enable") true then [EvDensityFilter] else [].

Definition sched_cables : list Event :=
  [EvDegreeQuery false; EvDegreeQuery true; EvImportCableEdges].

Definition sched_graph_output : list Event :=
  if graphOutputEnabled args then [EvGraphOutput] else [].

Definition sched_sim : list Event :=
  EvNewSimTopo ::
  (if (0 <? String.length (simNodesJSONFile args))%nat
   then EvSimAddNode <$> default [] (Json_parse_nodes (simNodesJSONFile args))
   else []).

Definition sched_json : list Event :=
  if jsonOutputEnabled args
  then
    let jsonGraphConfig := subConfig config "json_graph_output" in
    match get_string jsonGraphConfig "filename", get_bool jsonGraphConfig "pretty_print" with
    | Some jsonFileNameConfig, Some pretty =>
        [EvJsonWrite pretty
           (choose_json_file_name (jsonOutputFile args) jsonFileNameConfig)]
    | _, _ => []
    end
  else [].

(** The calls [main] makes when no collaborator fails, in order. *)
Definition schedule : list Event :=
  sched_merge
  ++ [EvAssignIds; EvDelaunay]
  ++ sched_kml KmlDelaunay
  ++ [EvBetaSkeleton]
  ++ sched_density
  ++ sched_cables
  ++ [EvPrune]
  ++ sched_kml KmlGabriel
  ++ sched_graph_output
  ++ sched_sim
  ++ sched_json.

End Schedule.

(** The position of a call in the pipeline. *)
Definition rank (e : Event) : nat :=
  match e with
  | EvImportCities | EvImportCitiesFromFile => 0
  | EvOptics Neighbour => 1
  | EvOptics Metropolis => 2
  | EvImportLandingPoints => 3
  | EvImportWaypoints => 4
  | EvAssignIds => 5
  | EvDelaunay => 6
  | EvKml KmlDelaunay => 7
  | EvBetaSkeleton => 8
  | EvDensityFilter => 9
  | EvDegreeQuery false => 10
  | EvDegreeQuery true => 11
  | EvImportCableEdges => 12
  | EvPrune => 13
  | EvKml KmlGabriel => 14
  | EvGraphOutput => 15
  | EvNewSimTopo => 16
  | EvSimAddNode _ => 17
  | EvJsonWrite _ _ => 18
  end.

(** [a] may come before [b]: a later position, or two node insertions of the
    simulation-node loop. *)
Definition in_order (a b : Event) : Prop :=
  rank a < rank b ∨ (rank a = 17 ∧ rank b = 17).

(** The node sources of spec 4.2: clustered cities, metropolis hubs, cable
    landing points, cable waypoints. *)
Definition node_sources : list Event :=
  [EvOptics Neighbour; EvOptics Metropolis; EvImportLandingPoints; EvImportWaypoints].

Section Stores.
Context `{Domain}.

(** The identifier of each stored location, in iteration order. *)
Definition location_ids (l : Locations) : list (option Z) :=
  (λ p, node_id <$> heap l !! p) <$> order l.

(** Each location is stored once, and every stored pointer is live. *)
Definition valid_store (l : Locations) : Prop :=
  NoDup (order l) ∧ ∀ p, p ∈ order l → is_Some (heap l !! p).

Definition store_of (w : World) : Locations := locations (nodeImport w).

End Stores.

(** The calls every complete run makes, whatever the configuration. *)
Definition mandatory : list Event :=
  node_sources
  ++ [EvAssignIds; EvDelaunay; EvBetaSkeleton; EvImportCableEdges; EvPrune;
      EvNewSimTopo].

(* ===================================================================== *)
(** ** A small concrete world *)
(* ===================================================================== *)

(** Concrete collaborators on which the stages can be run: four cities on the
    unit square and one cable landing point, the planar graph stages above,
    and a triangulator that searches the face sets meeting the contract. *)
Module Demo.
Import Triangulation.

#[export] Instance domain : Domain :=
  {| Seed := Z;
     NodeData := Topo.point;
     CableData := list (positive * positive);
     BaseTopology := Topo.TopologyGraph Q;
     SimulationTopology := list SimulationNode |}.

(** A new node object at the next free address, appended to the store. *)
Definition add_location (pos : Topo.point) (l : Locations) : Locations :=
  let p := Pos.of_succ_nat (length (order l)) in
  {| heap := <[p := {| node_id := 0; node_data := pos |}]> (heap l);
     order := order l ++ [p] |}.

Definition with_locations (l : Locations) (ni : NodeImporter) : NodeImporter :=
  {| locations := l; cables := cables ni |}.

Definition import_square (ni : NodeImporter) : NodeImporter :=
  with_locations
    (add_location (0, 1)%Q (add_location (1, 1)%Q
       (add_location (1, 0)%Q (add_location (0, 0)%Q (locations ni)))))
    ni.

(** One landing point, joined by cable to the second city. *)
Definition import_landing_point (ni : NodeImporter) : NodeImporter :=
  let l := add_location (3, 2)%Q (locations ni) in
  {| locations := l;
     cables := (2%positive, Pos.of_succ_nat (length (order (locations ni))))
               :: cables ni |}.

Definition geo_nodes (l : Locations) : list Topo.GeoNode :=
  omap
    (λ p, (λ n, {| Topo.gn_id := node_id n; Topo.gn_pos := node_data n |}) <$> heap l !! p)
    (order l).

Definition triangulate (l : Locations) : option (Topo.TopologyGraph Q) :=
  match delaunay_triangulations (geo_nodes l) with
  | T :: _ => Some (triangulation_graph Topo.sqdist (geo_nodes l) T)
  | [] => None
  end.

Definition cable_edge (l : Locations) (c : positive * positive) : option (Topo.Edge Q) :=
  a ← heap l !! c.1;
  b ← heap l !! c.2;
  Some {| Topo.e_src := node_id a; Topo.e_dst := node_id b;
          Topo.e_weight := Topo.sqdist (node_data a) (node_data b) |}.

Definition add_cable_edges (ni : NodeImporter) (g : Topo.TopologyGraph Q)
    : Topo.TopologyGraph Q :=
  {| Topo.g_nodes := Topo.g_nodes g;
     Topo.g_edges :=
       Topo.g_edges g ++ omap (cable_edge (locations ni)) (cables ni) |}.

(** The node record of the simulation-node file. *)
Definition sim_node : SimulationNode :=
  {| sim_id := 100; sim_latitude := 50.5; sim_longitude := 8.75 |}.

(** An edge is implausible when its squared length is 16 or more. *)
Definition too_long (_ _ : option Topo.point) (len : Q) : bool := Qle_bool 16 len.

#[export] Instance collaborators : Collaborators :=
  {| importCities := λ _ ni, Some (import_square ni);
     importCitiesFromFile := λ ni, Some (import_square ni);
     OPTICSFilter_filter := λ _ _ _ _ l, Some l;
     importSeacableLandingPoints := λ ni, Some (import_landing_point ni);
     importSubmarineCableEdgesWaypoints := λ ni, Some ni;
     Delaunay_create := triangulate;
     filterBetaSkeletonEdges := λ g, Some (Topo.filterBetaSkeletonEdges 1 g);
     filterByLength := λ g, Some (Topo.filterByLength too_long g);
     getHighestDegreeNodes := λ _ _ _, [];
     importSubmarineCableEdges := λ ni g, Some (ni, add_cable_edges ni g);
     prune := λ g, Some (Topo.prune g);
     ofstream_good := λ name, negb (String.eqb name "");
     SimulationTopology_new := λ _, Some [];
     addNode := λ n topos, Some (topos.1 ++ [n], topos.2);
     Json_parse_nodes := λ name,
       if String.eqb name "sim_nodes.json"
       then Some [sim_node]
       else None |}.

Definition entries : list (string * ConfigValue) :=
  [ ("debug.enable", CfgBool false);
    ("neighbourCluster.minPts", CfgUInt 3);
    ("neighbourCluster.maxClusterDistance", CfgDouble 50);
    ("metropolisCluster.minPts", CfgUInt 5);
    ("metropolisCluster.maxClusterDistance", CfgDouble 200);
    ("lengthFilter.enable", CfgBool false);
    ("kml_graph_output.pins.color", CfgString "ff0000");
    ("kml_graph_output.pins.alpha", CfgDouble 1);
    ("kml_graph_output.edges.color", CfgString "00ff00");
    ("kml_graph_output.edges.alpha", CfgDouble 1);
    ("kml_graph_output.seacable.color", CfgString "0000ff");
    ("kml_graph_output.seacable.alpha", CfgDouble 1);
    ("kml_graph_output.seacablepins.color", CfgString "ffff00");
    ("kml_graph_output.seacablepins.alpha", CfgDouble 1);
    ("kml_graph_output.delaunayFile", CfgString "delaunay.kml");
    ("kml_graph_output.gabrielFile", CfgString "gabriel.kml");
    ("simple_graph_output.nodeFile", CfgString "nodes.txt");
    ("simple_graph_output.edgeFile", CfgString "edges.txt");
    ("json_graph_output.filename", CfgString "graph.json");
    ("json_graph_output.pretty_print", CfgBool true) ].

Definition config : Config := root_config (list_to_map entries).

(** The same configuration with another value at [key]. *)
Definition config_with (key : string) (v : ConfigValue) : Config :=
  root_config (<[key := v]> (list_to_map entries)).

Definition args : CMDArgs :=
  {| getSeed := 42%Z;
     kmlOutputEnabled := true;
     graphOutputEnabled := true;
     jsonOutputEnabled := true;
     simNodesJSONFile := "sim_nodes.json";
     jsonOutputFile := "cli.json" |}.

(** No JSON file name on the command line. *)
Definition args_no_cli_name : CMDArgs :=
  {| getSeed := 42%Z;
     kmlOutputEnabled := true;
     graphOutputEnabled := true;
     jsonOutputEnabled := true;
     simNodesJSONFile := "sim_nodes.json";
     jsonOutputFile := "" |}.

(** The world [main] starts in: an importer with an empty location store. *)
Definition world : World :=
  {| nodeImport := {| locations := {| heap := ∅; order := [] |}; cables := [] |};
     files := [] |}.

(** Two clusters with no connecting edge: three nodes in a path, two nodes
    joined by one edge. *)
Definition two_clusters : Topo.TopologyGraph Q :=
  {| Topo.g_nodes :=
       [ {| Topo.gn_id := 0; Topo.gn_pos := (0, 0)%Q |};
         {| Topo.gn_id := 1; Topo.gn_pos := (1, 0)%Q |};
         {| Topo.gn_id := 2; Topo.gn_pos := (2, 0)%Q |};
         {| Topo.gn_id := 3; Topo.gn_pos := (9, 9)%Q |};
         {| Topo.gn_id := 4; Topo.gn_pos := (9, 8)%Q |} ];
     Topo.g_edges :=
       [ {| Topo.e_src := 3; Topo.e_dst := 4; Topo.e_weight := 1%Q |};
         {| Topo.e_src := 0; Topo.e_dst := 1; Topo.e_weight := 1%Q |};
         {| Topo.e_src := 2; Topo.e_dst := 1; Topo.e_weight := 1%Q |} ] |}.

(** The unit square, triangulated along the diagonal 0-2. *)
Definition square_graph : Topo.TopologyGraph Q :=
  triangulation_graph Topo.sqdist unit_square [(0, 1, 2); (0, 2, 3)]%Z.

End Demo.

(** Every simulation node is inserted before the pruner is called. *)
Definition sim_nodes_injected_before_pruning (t : list Event) : Prop :=
  ∀ i j n, t !! i = Some (EvSimAddNode n) → t !! j = Some EvPrune → i < j.


Section RunPredicates.
Context `{Domain}.

(** [emits S m]: every run of [m] makes the calls of [S], in that order, up
    to the point where it fails; a run that returns has made them all. *)
Definition emits {A} (S : list Event) (m : M A) : Prop :=
  ∀ w, trace (m w) `prefix_of` S ∧
       (is_done (outcome (m w)) = true → trace (m w) = S).

(** Every call of a run of [m] comes before position [n] of the pipeline. *)
Definition stays_before {A} (n : nat) (m : M A) : Prop :=
  ∀ w, Forall (λ e, rank e < n) (trace (m w)).

(** Every run of [m] aborts, having made only calls before position [n]. *)
Definition stops_before {A} (n : nat) (m : M A) : Prop :=
  ∀ w, is_abort (outcome (m w)) = true ∧ Forall (λ e, rank e < n) (trace (m w)).

End RunPredicates.

(* ===================================================================== *)
(** ** Runs that return, and what they leave *)
(* ===================================================================== *)

Section ReturnPredicates.
Context `{Collaborators}.

(** [m], started in [w], returns [a] and leaves the world [w']. *)
Definition returns {A} (m : M A) (w : World) (a : A) (w' : World) : Prop :=
  outcome (m w) = Done a ∧ final (m w) = w'.

Definition with_importer (ni : NodeImporter) (w : World) : World :=
  {| nodeImport := ni; files := files w |}.

Definition with_store (l : Locations) (w : World) : World :=
  with_importer {| locations := l; cables := cables (nodeImport w) |} w.

Definition with_file (name : string) (content : OutputFile) (w : World) : World :=
  {| nodeImport := nodeImport w; files := (name, content) :: files w |}.

(** No run of [m] writes a file. *)
Definition keeps_files {A} (m : M A) : Prop :=
  ∀ w, files (final (m w)) = files w.

(** The insertions of lines 231-236 without the bookkeeping of the run: each
    record in turn, stopping at the first that fails. *)
Fixpoint add_nodes (nodes : list SimulationNode)
    (topos : SimulationTopology * BaseTopology)
    : option (SimulationTopology * BaseTopology) :=
  match nodes with
  | [] => Some topos
  | node :: rest =>
      match addNode node topos with
      | Some topos' => add_nodes rest topos'
      | None => None
      end
  end.

(** The city import of lines 67-71. *)
Definition import_cities_of (config : Config) (args : CMDArgs)
    (ni : NodeImporter) : option NodeImporter :=
  match get_bool config "debug.enable" with
  | Some debug =>
      if Bool.eqb debug false then importCities (getSeed args) ni
      else importCitiesFromFile ni
  | None => None
  end.

(** The filter call of one clustering pass (lines 85-88, 96-99) on a store. *)
Definition optics_call (args : CMDArgs) (minPts : N) (maxClusterDistance : float)
    (l : Locations) : option Locations :=
  let eps := (maxClusterDistance / Cxx.EARTH_RADIUS_KM)%float in
  OPTICSFilter_filter eps minPts (0.8 * eps)%float (getSeed args) l.

End ReturnPredicates.

(** The configuration meets the precondition of clustering pass [p]. *)
Definition valid_clustering_config (config : Config) (p : Pass) : Prop :=
  ∃ minPts d,
    get_uint config (minPts_key p) = Some minPts ∧ (0 < minPts)%N
    ∧ get_double config (maxClusterDistance_key p) = Some d
    ∧ (0 <? d)%float = true.

(** The entries read at lines 126-135, by type. *)
Definition kml_string_keys : list string :=
  ["pins.color"; "edges.color"; "seacable.color"; "seacablepins.color";
   "delaunayFile"; "gabrielFile"].

Definition kml_double_keys : list string :=
  ["pins.alpha"; "edges.alpha"; "seacable.alpha"; "seacablepins.alpha"].

(** Some entry of the KML configuration is missing or of the wrong type. *)
Definition kml_config_incomplete (config : Config) : Prop :=
  (∃ key, key ∈ kml_string_keys
          ∧ get_string (subConfig config "kml_graph_output") key = None)
  ∨ (∃ key, key ∈ kml_double_keys
            ∧ get_double (subConfig config "kml_graph_output") key = None).

(** [kml] holds the ten entries that lines 126-135 read. *)
Definition kml_config_read (config : Config) (kml : KmlConfig) : Prop :=
  let kmlConfig := subConfig config "kml_graph_output" in
  get_string kmlConfig "pins.color" = Some (pincolor kml)
  ∧ get_double kmlConfig "pins.alpha" = Some (pinAlpha kml)
  ∧ get_string kmlConfig "edges.color" = Some (edgecolor kml)
  ∧ get_double kmlConfig "edges.alpha" = Some (edgeAlpha kml)
  ∧ get_string kmlConfig "seacable.color" = Some (seacablecolor kml)
  ∧ get_double kmlConfig "seacable.alpha" = Some (seacableAlpha kml)
  ∧ get_string kmlConfig "seacablepins.color" = Some (seacablePinColor kml)
  ∧ get_double kmlConfig "seacablepins.alpha" = Some (seacablePinAlpha kml)
  ∧ get_string kmlConfig "delaunayFile" = Some (delaunayFile kml)
  ∧ get_string kmlConfig "gabrielFile" = Some (gabrielFile kml).

(** The simulation-node records of a trace, in order. *)
Definition inserted_nodes (t : list Event) : list SimulationNode :=
  omap (λ e, match e with EvSimAddNode n => Some n | _ => None end) t.

Section FilesWritten.
Context `{Collaborators}.
Variable config : Config.
Variable args : CMDArgs.

(** What the KML stage (lines 139-147, 183-191) writes. *)
Definition kml_files (name : string) (g : BaseTopology) (kml : KmlConfig)
    : list (string * OutputFile) :=
  if kmlOutputEnabled args then [(name, OutKml g kml)] else [].

(** What the graph output stage (lines 197-211) writes when it returns,
    latest first: both streams are opened, then nodes and edges written. *)
Definition graph_files (g : BaseTopology) : list (string * OutputFile) :=
  if graphOutputEnabled args
  then
    let simpleGraphConfig := subConfig config "simple_graph_output" in
    match get_string simpleGraphConfig "nodeFile",
          get_string simpleGraphConfig "edgeFile" with
    | Some nodeFileName, Some edgeFileName =>
        [(edgeFileName, OutEdges g); (nodeFileName, OutNodes g);
         (edgeFileName, OutEmpty); (nodeFileName, OutEmpty)]
    | _, _ => []
    end
  else [].

(** What the JSON output stage (lines 244-268) writes when it returns. *)
Definition json_files (g : BaseTopology) : list (string * OutputFile) :=
  if jsonOutputEnabled args
  then
    let jsonGraphConfig := subConfig config "json_graph_output" in
    match get_string jsonGraphConfig "filename",
          get_bool jsonGraphConfig "pretty_print" with
    | Some jsonFileNameConfig, Some pretty =>
        [(choose_json_file_name (jsonOutputFile args) jsonFileNameConfig,
          OutJson pretty g)]
    | _, _ => []
    end
  else [].

(** Graph output can go ahead: both file names are configured and both
    streams open (lines 201-206). *)
Definition graph_output_ready : Prop :=
  graphOutputEnabled args = true →
  ∃ nodeFileName edgeFileName,
    get_string (subConfig config "simple_graph_output") "nodeFile"
      = Some nodeFileName
    ∧ ofstream_good nodeFileName = true
    ∧ get_string (subConfig config "simple_graph_output") "edgeFile"
      = Some edgeFileName
    ∧ ofstream_good edgeFileName = true.

(** The simulation-node file, when one is named, parses (lines 219-227). *)
Definition sim_nodes_ready : Prop :=
  simNodesJSONFile args ≠ "" → is_Some (Json_parse_nodes (simNodesJSONFile args)).

(** JSON output can go ahead: both entries are configured (lines 252, 263). *)
Definition json_output_ready : Prop :=
  jsonOutputEnabled args = true →
  is_Some (get_string (subConfig config "json_graph_output") "filename")
  ∧ is_Some (get_bool (subConfig config "json_graph_output") "pretty_print").

(** Everything [main] itself checks on its way: the entries it reads are
    there with the type it asks for, its assertions hold. *)
Definition preconditions_met : Prop :=
  is_Some (get_bool config "debug.enable")
  ∧ valid_clustering_config config Neighbour
  ∧ valid_clustering_config config Metropolis
  ∧ (∃ kml, kml_config_read config kml)
  ∧ is_Some (get_bool config "lengthFilter.enable")
  ∧ graph_output_ready
  ∧ sim_nodes_ready
  ∧ json_output_ready.

(** A run of [m] that aborts does so with a failure that meets [ok], and
    when a collaborator failed, the failed call is the last one made. *)
Definition aborts_with {A} (ok : Failure → Prop) (m : M A) : Prop :=
  ∀ w f, outcome (m w) = Abort f →
    ok f ∧ ∀ e, f = CollaboratorFailed e → last (trace (m w)) = Some e.

(** The failures that are left when the preconditions are met: those of a
    collaborator. *)
Definition expected_failure (f : Failure) : Prop :=
  preconditions_met → ∃ e, f = CollaboratorFailed e.

End FilesWritten.


(** Further concrete inputs on the collaborators of [Demo]. *)
Module Scenarios.
Import Demo.

(** The configuration of [Demo] without the entry at [key]. *)
Definition config_without (key : string) : Config :=
  root_config (delete key (list_to_map entries)).

(** No output is asked for and no simulation-node file is named. *)
Definition args_no_output : CMDArgs :=
  {| getSeed := 42%Z;
     kmlOutputEnabled := false;
     graphOutputEnabled := false;
     jsonOutputEnabled := false;
     simNodesJSONFile := "";
     jsonOutputFile := "" |}.


(** Two nodes, the first stored a second time at the end. *)
Definition twice_stored : Locations :=
  {| heap := {[ 1%positive := {| node_id := 7; node_data := (0, 0)%Q |};
                2%positive := {| node_id := 9; node_data := (1, 0)%Q |} ]};
     order := [1; 2; 1]%positive |}.

(** The same store after every node was given the identifier [i]. *)
Definition relabelled (i : Z) (l : Locations) : Locations :=
  {| heap := setId i <$> heap l; order := order l |}.


(** The KML colours and file names of [Demo.config]. *)
Definition kml : KmlConfig :=
  {| pincolor := "ff0000"; pinAlpha := 1;
     edgecolor := "00ff00"; edgeAlpha := 1;
     seacablecolor := "0000ff"; seacableAlpha := 1;
     seacablePinColor := "ffff00"; seacablePinAlpha := 1;
     delaunayFile := "delaunay.kml"; gabrielFile := "gabriel.kml" |}.

End Scenarios.

(* ===================================================================== *)
(** * Lemmas and theorems *)
(* ===================================================================== *)

(** ** Scalars *)

Lemma int_incr_in_range (i : Z) :
  (0 ≤ i < Cxx.INT_MAX)%Z → Cxx.int_incr i = (i + 1)%Z.
Proof.
  unfold Cxx.int_incr, Cxx.wrap_int, Cxx.INT_MAX. intros Hi.
  rewrite Z.mod_small by lia. lia.
Qed.


(** The assert guards the configured radius, not [eps]: the smallest positive
    double passes the assert and still gives a neighbourhood radius of zero. *)
Example positive_radius_zero_eps :
  (0 <? 0x1p-1074)%float = true ∧
  (0x1p-1074 / Cxx.EARTH_RADIUS_KM <=? 0)%float = true.
Proof. split; vm_compute; reflexivity. Qed.

(** [++nodeId] past [INT_MAX] wraps to [INT_MIN]. *)
Example int_incr_wraps : Cxx.int_incr Cxx.INT_MAX = Cxx.INT_MIN.
Proof. reflexivity. Qed.

(** ** Running the stages *)

Section Runs.
Context `{Collaborators}.

Lemma run_bind {A B} (m : M A) (k : A → M B) (w : World) :
  (m ≫= k) w =
    match outcome (m w) with
    | Done a =>
        {| outcome := outcome (k a (final (m w)));
           final := final (k a (final (m w)));
           trace := trace (m w) ++ trace (k a (final (m w))) |}
    | Abort f =>
        {| outcome := Abort f; final := final (m w); trace := trace (m w) |}
    end.
Proof. reflexivity. Qed.

Lemma run_bind_done {A B} (m : M A) (k : A → M B) (w : World) (a : A) :
  outcome (m w) = Done a →
  (m ≫= k) w =
    {| outcome := outcome (k a (final (m w)));
       final := final (k a (final (m w)));
       trace := trace (m w) ++ trace (k a (final (m w))) |}.
Proof. intros Hm. rewrite run_bind, Hm. reflexivity. Qed.

Lemma run_bind_abort {A B} (m : M A) (k : A → M B) (w : World) (f : Failure) :
  outcome (m w) = Abort f →
  (m ≫= k) w =
    {| outcome := Abort f; final := final (m w); trace := trace (m w) |}.
Proof. intros Hm. rewrite run_bind, Hm. reflexivity. Qed.

Lemma emits_bind {A B} (S1 S2 : list Event) (m : M A) (k : A → M B) :
  emits S1 m →
  (∀ w a, outcome (m w) = Done a → emits S2 (k a)) →
  emits (S1 ++ S2) (m ≫= k).
Proof.
  intros Hm Hk w. destruct (Hm w) as [Hpre Hall]. rewrite run_bind.
  destruct (outcome (m w)) as [a|f] eqn:Ho; simpl.
  - destruct (Hk w a Ho (final (m w))) as [Hpre' Hall'].
    rewrite (Hall eq_refl). split.
    + by apply prefix_app.
    + intros Hd. by rewrite (Hall' Hd).
  - split; [|done]. by apply prefix_app_r.
Qed.

Lemma emits_silent_bind {A B} (S : list Event) (m : M A) (k : A → M B) :
  emits [] m →
  (∀ w a, outcome (m w) = Done a → emits S (k a)) →
  emits S (m ≫= k).
Proof. intros Hm Hk. by apply (emits_bind [] S). Qed.

Lemma emits_cons_bind {A B} (e : Event) (S : list Event) (m : M A) (k : A → M B) :
  emits [e] m →
  (∀ w a, outcome (m w) = Done a → emits S (k a)) →
  emits (e :: S) (m ≫= k).
Proof. intros Hm Hk. by apply (emits_bind [e] S). Qed.

Lemma emits_ret {A} (a : A) : emits [] (mret a : M A).
Proof. intros w. by split. Qed.

Lemma emits_abort {A} (S : list Event) (f : Failure) : emits S (abort f : M A).
Proof. intros w. split; [apply prefix_nil | done]. Qed.

Lemma emits_emit (e : Event) : emits [e] (emit e).
Proof. intros w. by split. Qed.

Lemma emits_assert (c : bool) (t : string) : emits [] (cxx_assert c t).
Proof. destruct c; [apply emits_ret | apply emits_abort]. Qed.

Lemma emits_config_get {A} (get : Config → string → option A) c key :
  emits [] (config_get get c key).
Proof. unfold config_get. destruct (get c key); [apply emits_ret | apply emits_abort]. Qed.

Lemma config_get_done {A} (get : Config → string → option A) c key w a :
  outcome (config_get get c key w) = Done a → get c key = Some a.
Proof. unfold config_get. destruct (get c key); simpl; congruence. Qed.

Lemma emits_call {A} (e : Event) (r : option A) : emits [e] (call e r).
Proof.
  unfold call. apply (emits_bind [e] []); [apply emits_emit|].
  intros _ _ _. destruct r; [apply emits_ret | apply emits_abort].
Qed.

Lemma emits_get_importer : emits [] get_importer.
Proof. intros w. by split. Qed.

Lemma emits_set_importer ni : emits [] (set_importer ni).
Proof. intros w. by split. Qed.

Lemma emits_get_locations : emits [] get_locations.
Proof. intros w. by split. Qed.

Lemma emits_set_locations l : emits [] (set_locations l).
Proof. intros w. by split. Qed.

Lemma emits_write_file name content : emits [] (write_file name content).
Proof. intros w. by split. Qed.

End Runs.

Create HintDb emits.
#[global] Hint Resolve emits_ret emits_abort emits_emit emits_assert
  emits_config_get emits_call emits_get_importer emits_set_importer
  emits_get_locations emits_set_locations emits_write_file : emits.

(** ** The calls of each stage *)

Section StageTraces.
Context `{Collaborators}.
Variable config : Config.
Variable args : CMDArgs.

Ltac silent := apply emits_silent_bind; [solve [auto with emits] | intros ? ? ?].
Ltac loud := apply emits_cons_bind; [solve [auto with emits] | intros ? ? ?].

Lemma read_city_positions_emits :
  emits (sched_cities config) (read_city_positions config args).
Proof.
  unfold read_city_positions, sched_cities, flag.
  apply emits_silent_bind; [auto with emits|]. intros w debug Hd.
  rewrite (config_get_done _ _ _ _ _ Hd). simpl.
  silent. destruct (Bool.eqb debug false); loud; auto with emits.
Qed.

Lemma optics_pass_emits (p : Pass) : emits [EvOptics p] (optics_pass config args p).
Proof.
  unfold optics_pass. do 5 silent. loud. auto with emits.
Qed.

Lemma filter_locations_with_optics_emits :
  emits [EvOptics Neighbour; EvOptics Metropolis]
    (filter_locations_with_optics config args).
Proof.
  apply (emits_bind [_] [_]); [apply optics_pass_emits|].
  intros _ _ _. apply optics_pass_emits.
Qed.

Lemma import_seacable_nodes_emits :
  emits [EvImportLandingPoints; EvImportWaypoints] import_seacable_nodes.
Proof.
  unfold import_seacable_nodes. silent. loud. do 2 silent. loud. auto with emits.
Qed.

Lemma reset_node_ids_emits : emits [EvAssignIds] reset_node_ids.
Proof. unfold reset_node_ids. loud. silent. auto with emits. Qed.

Lemma create_delaunay_triangulation_emits :
  emits [EvDelaunay] create_delaunay_triangulation.
Proof. unfold create_delaunay_triangulation. silent. auto with emits. Qed.

Lemma kml_config_emits : emits [] (kml_config config).
Proof. unfold kml_config. do 10 silent. auto with emits. Qed.

Lemma kml_output_emits s kml topo file :
  emits (sched_kml args s) (kml_output args s kml topo file).
Proof.
  unfold kml_output, sched_kml. destruct (kmlOutputEnabled args).
  - loud. auto with emits.
  - auto with emits.
Qed.

Lemma create_beta_skeleton_emits g : emits [EvBetaSkeleton] (create_beta_skeleton g).
Proof. unfold create_beta_skeleton. auto with emits. Qed.

Lemma apply_density_filter_emits g :
  emits (sched_density config) (apply_density_filter config g).
Proof.
  unfold apply_density_filter, sched_density, flag.
  apply emits_silent_bind; [auto with emits|]. intros w enable He.
  rewrite (config_get_done _ _ _ _ _ He). simpl.
  destruct (Bool.eqb enable true); auto with emits.
Qed.

Lemma import_submarine_cables_emits g :
  emits sched_cables (import_submarine_cables g).
Proof.
  unfold import_submarine_cables, sched_cables.
  do 2 loud. silent. loud. silent. auto with emits.
Qed.

Lemma prune_stage_emits g : emits [EvPrune] (prune_stage g).
Proof. unfold prune_stage. auto with emits. Qed.

Lemma open_ofstream_emits name : emits [] (open_ofstream name).
Proof.
  unfold open_ofstream. destruct (ofstream_good name); [|auto with emits].
  silent. auto with emits.
Qed.

Lemma graph_output_emits g :
  emits (sched_graph_output args) (graph_output config args g).
Proof.
  unfold graph_output, sched_graph_output.
  destruct (graphOutputEnabled args); [|auto with emits].
  silent. apply emits_silent_bind; [apply open_ofstream_emits|]. intros ? ? ?.
  do 2 silent. apply emits_silent_bind; [apply open_ofstream_emits|]. intros ? ? ?.
  silent. loud. silent. auto with emits.
Qed.

Lemma add_simulation_nodes_emits nodes topos :
  emits (EvSimAddNode <$> nodes) (add_simulation_nodes nodes topos).
Proof.
  revert topos. induction nodes as [|n nodes IH]; intros topos; csimpl.
  - auto with emits.
  - loud. apply IH.
Qed.

Lemma deal_with_simulation_nodes_emits g :
  emits (sched_sim args) (deal_with_simulation_nodes args g).
Proof.
  unfold deal_with_simulation_nodes, sched_sim. loud.
  destruct (0 <? String.length (simNodesJSONFile args))%nat; [|auto with emits].
  destruct (Json_parse_nodes (simNodesJSONFile args)) as [nodes|]; simpl.
  - apply add_simulation_nodes_emits.
  - auto with emits.
Qed.

Lemma json_output_emits g : emits (sched_json config args) (json_output config args g).
Proof.
  unfold json_output, sched_json.
  destruct (jsonOutputEnabled args); [|auto with emits].
  apply emits_silent_bind; [auto with emits|]. intros w name Hn.
  rewrite (config_get_done _ _ _ _ _ Hn). simpl.
  apply emits_silent_bind; [auto with emits|]. intros w' pretty Hp.
  rewrite (config_get_done _ _ _ _ _ Hp). simpl.
  loud. auto with emits.
Qed.

(** Every run of [main] makes the calls of [schedule] in order, up to the
    point where it fails, and all of them when it returns. *)
Lemma merge_node_sources_emits :
  emits (sched_merge config) (merge_node_sources config args).
Proof.
  unfold merge_node_sources, sched_merge.
  apply emits_bind; [apply read_city_positions_emits|]. intros _ _ _.
  apply (emits_bind [_; _] [_; _]); [apply filter_locations_with_optics_emits|].
  intros _ _ _. apply import_seacable_nodes_emits.
Qed.

Lemma build_and_output_emits :
  emits
    ([EvDelaunay] ++ sched_kml args KmlDelaunay ++ [EvBetaSkeleton]
     ++ sched_density config ++ sched_cables ++ [EvPrune]
     ++ sched_kml args KmlGabriel ++ sched_graph_output args
     ++ sched_sim args ++ sched_json config args)
    (build_and_output config args).
Proof.
  unfold build_and_output.
  apply (emits_bind [_]); [apply create_delaunay_triangulation_emits|]. intros _ delGen _.
  apply emits_silent_bind; [apply kml_config_emits|]. intros _ kml _.
  apply emits_bind; [apply kml_output_emits|]. intros _ _ _.
  apply (emits_bind [_]); [apply create_beta_skeleton_emits|]. intros _ g1 _.
  apply emits_bind; [apply apply_density_filter_emits|]. intros _ g2 _.
  apply emits_bind; [apply import_submarine_cables_emits|]. intros _ g3 _.
  apply (emits_bind [_]); [apply prune_stage_emits|]. intros _ g4 _.
  apply emits_bind; [apply kml_output_emits|]. intros _ _ _.
  apply emits_bind; [apply graph_output_emits|]. intros _ _ _.
  apply emits_bind; [apply deal_with_simulation_nodes_emits|]. intros _ topos _.
  rewrite <- (app_nil_r (sched_json _ _)).
  apply emits_bind; [apply json_output_emits|]. intros _ _ _.
  auto with emits.
Qed.

(** Every run of [main] makes the calls of [schedule] in order, up to the
    point where it fails, and all of them when it returns. *)
Lemma main_emits : emits (schedule config args) (main config args).
Proof.
  unfold main, schedule.
  apply emits_bind; [apply merge_node_sources_emits|]. intros _ _ _.
  apply (emits_bind [_] (_ :: _)); [apply reset_node_ids_emits|]. intros _ _ _.
  apply build_and_output_emits.
Qed.

End StageTraces.

(** ** The order of the calls in a run *)

Section TraceOrder.
Context `{Collaborators}.
Variable config : Config.
Variable args : CMDArgs.

Lemma sim_nodes_sorted (nodes : list SimulationNode) (tail : list Event) :
  StronglySorted in_order tail →
  Forall (λ e, 17 < rank e) tail →
  StronglySorted in_order ((EvSimAddNode <$> nodes) ++ tail).
Proof.
  intros Hs Ht. induction nodes as [|n nodes IH]; csimpl; [done|].
  constructor; [done|]. apply Forall_app. split.
  - apply Forall_forall. intros e (n' & -> & _)%list_elem_of_fmap. by right.
  - eapply Forall_impl; [exact Ht|]. intros e He. left. simpl in *. lia.
Qed.

Lemma before_sim_nodes (e : Event) (nodes : list SimulationNode) (tail : list Event) :
  rank e < 17 →
  Forall (λ e', 17 < rank e') tail →
  Forall (in_order e) ((EvSimAddNode <$> nodes) ++ tail).
Proof.
  intros He Ht. apply Forall_app. split.
  - apply Forall_forall. intros e' (n' & -> & _)%list_elem_of_fmap. left. simpl. lia.
  - eapply Forall_impl; [exact Ht|]. intros e' He'. left. simpl in *. lia.
Qed.

Lemma schedule_sorted : StronglySorted in_order (schedule config args).
Proof.
  unfold schedule, sched_merge, sched_cities, sched_kml, sched_density,
    sched_cables, sched_graph_output, sched_sim, sched_json.
  set (nodes := default [] (Json_parse_nodes (simNodesJSONFile args))).
  assert (Htail : ∀ tail : list Event,
    tail = [] ∨ (∃ p f, tail = [EvJsonWrite p f]) →
    StronglySorted in_order tail ∧ Forall (λ e, 17 < rank e) tail).
  { intros tail [->|(p & f & ->)]; split; repeat constructor. }
  assert (Hnil : ∀ tail : list Event,
    tail = [] ∨ (∃ p f, tail = [EvJsonWrite p f]) →
    ∀ e, rank e < 17 → Forall (in_order e) ([] ++ tail)).
  { intros tail Ht e He. destruct (Htail tail Ht) as [_ Hf]. simpl.
    eapply Forall_impl; [exact Hf|]. intros e' He'. left. simpl in *. lia. }
  destruct (Bool.eqb (flag config "debug.enable") false),
    (kmlOutputEnabled args), (Bool.eqb (flag config "lengthFilter.enable") true),
    (graphOutputEnabled args),
    (0 <? String.length (simNodesJSONFile args))%nat;
    simpl;
    match goal with
    | |- context [if jsonOutputEnabled args then ?a else ?b] =>
        set (tail := if jsonOutputEnabled args then a else b);
        assert (Ht : tail = [] ∨ (∃ p f, tail = [EvJsonWrite p f]))
          by (subst tail; destruct (jsonOutputEnabled args); simpl;
              repeat case_match; eauto)
    end;
    destruct (Htail tail Ht) as [Hs Hf]; clearbody tail;
    repeat
      (apply SSorted_cons;
       [| repeat (apply Forall_cons; split; [left; simpl; lia|]);
          first [ apply before_sim_nodes; [simpl; lia | exact Hf]
                | apply (Hnil tail Ht); simpl; lia ] ]);
    first [ apply sim_nodes_sorted; assumption | exact Hs ].
Qed.

End TraceOrder.

(** ** The identifier loop *)

Section IdLoop.
Context `{Domain}.

Lemma setId_loop_frame (nodes : list positive) (nodeId : Z)
    (h : gmap positive GeographicNode) (p : positive) :
  p ∉ nodes → (setId_loop nodes nodeId h).1 !! p = h !! p.
Proof.
  revert nodeId h. induction nodes as [|q nodes IH]; intros nodeId h Hp; simpl.
  - done.
  - apply not_elem_of_cons in Hp as [Hpq Hp].
    rewrite IH by done. by rewrite lookup_alter_ne.
Qed.

Lemma setId_loop_data (nodes : list positive) (nodeId : Z)
    (h : gmap positive GeographicNode) (p : positive) :
  node_data <$> (setId_loop nodes nodeId h).1 !! p = node_data <$> h !! p.
Proof.
  revert nodeId h. induction nodes as [|q nodes IH]; intros nodeId h; simpl.
  - done.
  - rewrite IH. destruct (decide (q = p)) as [->|Hne].
    + rewrite lookup_alter_eq. by destruct (h !! p).
    + by rewrite lookup_alter_ne.
Qed.

Lemma setId_loop_ids (nodes : list positive) (nodeId : Z)
    (h : gmap positive GeographicNode) :
  NoDup nodes →
  (∀ p, p ∈ nodes → is_Some (h !! p)) →
  (0 ≤ nodeId)%Z →
  (nodeId + Z.of_nat (length nodes) ≤ Cxx.INT_MAX)%Z →
  (λ p, node_id <$> (setId_loop nodes nodeId h).1 !! p) <$> nodes
    = Some <$> seqZ nodeId (Z.of_nat (length nodes))
  ∧ (setId_loop nodes nodeId h).2 = (nodeId + Z.of_nat (length nodes))%Z.
Proof.
  revert nodeId h.
  induction nodes as [|p nodes IH]; intros nodeId h Hnd Hlive H0 Hmax.
  - simpl. split; [done | lia].
  - apply NoDup_cons in Hnd as [Hp Hnd]. cbn [length] in Hmax.
    cbn [setId_loop]. rewrite int_incr_in_range by lia.
    destruct (IH (nodeId + 1)%Z (alter (setId nodeId) p h)) as [Hids Hend];
      [done | | lia | lia |].
    { intros q Hq. destruct (decide (p = q)) as [->|Hne].
      - rewrite lookup_alter_eq. destruct (Hlive q) as [n ->]; [by left | by eexists].
      - rewrite lookup_alter_ne by done. apply Hlive. by right. }
    split; [| rewrite Hend; cbn [length]; lia].
    rewrite fmap_cons, Hids. rewrite setId_loop_frame by done.
    rewrite lookup_alter_eq. destruct (Hlive p) as [n ->]; [by left|]. simpl.
    rewrite Nat2Z.inj_succ, (seqZ_cons nodeId), Z.pred_succ by lia. csimpl.
    by replace (Z.succ nodeId) with (nodeId + 1)%Z by lia.
Qed.

(** After the loop the identifiers are 0, 1, ..., N-1 in iteration order; the
    order of the store and the data of every node are as they were. *)
Lemma reset_ids_spec (l : Locations) :
  valid_store l →
  (Z.of_nat (length (order l)) ≤ Cxx.INT_MAX)%Z →
  location_ids (reset_ids l) = Some <$> seqZ 0 (Z.of_nat (length (order l)))
  ∧ order (reset_ids l) = order l
  ∧ ∀ p, node_data <$> heap (reset_ids l) !! p = node_data <$> heap l !! p.
Proof.
  intros [Hnd Hlive] Hmax. unfold location_ids, reset_ids. simpl.
  split; [| split; [done | intros p; apply setId_loop_data]].
  apply setId_loop_ids; [done | done | lia | lia].
Qed.

End IdLoop.

(** ** Facts about the trace of [main] *)

Section TraceFacts.
Context `{Collaborators}.
Variable config : Config.
Variable args : CMDArgs.

Lemma sorted_lookup (t : list Event) (i j : nat) (a b : Event) :
  StronglySorted in_order t →
  i < j → t !! i = Some a → t !! j = Some b → in_order a b.
Proof.
  intros Hs. revert i j.
  induction Hs as [|x l Hs IH Hx]; intros i j Hij Ha Hb; [done|].
  destruct j as [|j]; [lia|]. destruct i as [|i]; simpl in *.
  - injection Ha as <-. rewrite Forall_forall in Hx.
    apply Hx. by eapply list_elem_of_lookup_2.
  - apply (IH i j); [lia | done | done].
Qed.

Lemma main_trace_prefix (w : World) :
  trace (main config args w) `prefix_of` schedule config args.
Proof. apply main_emits. Qed.

Lemma main_trace_done (w : World) :
  is_done (outcome (main config args w)) = true →
  trace (main config args w) = schedule config args.
Proof. apply main_emits. Qed.

Lemma main_trace_in_schedule (w : World) (i : nat) (e : Event) :
  trace (main config args w) !! i = Some e → schedule config args !! i = Some e.
Proof.
  intros Hi. eapply prefix_lookup_Some; [exact Hi | apply main_trace_prefix].
Qed.

(** Calls come in pipeline order. *)
Lemma main_in_order (w : World) (i j : nat) (a b : Event) :
  i < j →
  trace (main config args w) !! i = Some a →
  trace (main config args w) !! j = Some b →
  in_order a b.
Proof.
  intros Hij Ha%main_trace_in_schedule Hb%main_trace_in_schedule.
  eapply sorted_lookup; eauto using schedule_sorted.
Qed.

(** Apart from the node insertions of the loop, no call is made twice. *)
Lemma main_once (w : World) (i j : nat) (a : Event) :
  rank a ≠ 17 →
  trace (main config args w) !! i = Some a →
  trace (main config args w) !! j = Some a →
  i = j.
Proof.
  intros Ha Hi Hj. destruct (lt_eq_lt_dec i j) as [[Hlt|Heq]|Hgt]; [|done|].
  - destruct (main_in_order w i j a a Hlt Hi Hj) as [?|[? _]]; [lia|done].
  - destruct (main_in_order w j i a a Hgt Hj Hi) as [?|[? _]]; [lia|done].
Qed.

(** A call of the schedule at an earlier position has been made by the time
    a later one is. *)
Lemma main_preceded (w : World) (j : nat) (a b : Event) :
  a ∈ schedule config args →
  rank a < rank b →
  trace (main config args w) !! j = Some b →
  ∃ i, i < j ∧ trace (main config args w) !! i = Some a.
Proof.
  intros [i Hi]%list_elem_of_lookup Hab Hj.
  pose proof (main_trace_in_schedule w j b Hj) as Hj'.
  assert (i < j) as Hij.
  { destruct (lt_eq_lt_dec i j) as [[Hlt|Heq]|Hgt]; [done| |].
    - subst i. rewrite Hi in Hj'. injection Hj' as ->. lia.
    - destruct (sorted_lookup _ j i b a (schedule_sorted config args) Hgt Hj' Hi)
        as [?|[? ?]]; lia. }
  exists i. split; [done|].
  rewrite (prefix_lookup_lt _ (schedule config args)); [done | | apply main_trace_prefix].
  apply lookup_lt_Some in Hj. lia.
Qed.

Lemma mandatory_in_schedule (e : Event) :
  e ∈ mandatory → e ∈ schedule config args.
Proof.
  unfold mandatory, node_sources, schedule, sched_merge, sched_cables.
  unfold sched_sim. rewrite !elem_of_app, !elem_of_cons, !elem_of_nil.
  intros He. destruct_or!; subst e; tauto.
Qed.

Lemma in_mandatory (e : Event) :
  e ∈ mandatory ↔
    e ∈ node_sources ∨ e = EvAssignIds ∨ e = EvDelaunay ∨ e = EvBetaSkeleton
    ∨ e = EvImportCableEdges ∨ e = EvPrune ∨ e = EvNewSimTopo.
Proof.
  unfold mandatory. rewrite elem_of_app, !elem_of_cons, elem_of_nil. tauto.
Qed.

(** A run that returns has made every call of [mandatory]. *)
Lemma main_done_mandatory (w : World) (e : Event) :
  is_done (outcome (main config args w)) = true →
  e ∈ mandatory → e ∈ trace (main config args w).
Proof.
  intros Hd He. rewrite (main_trace_done w Hd). by apply mandatory_in_schedule.
Qed.


End TraceFacts.

(** ** Identifier assignment *)

Section Identifiers.
Context `{Collaborators}.
Variable config : Config.
Variable args : CMDArgs.

Lemma reset_node_ids_run (w : World) :
  reset_node_ids w =
    {| outcome := Done ();
       final :=
         {| nodeImport :=
              {| locations := reset_ids (store_of w);
                 cables := cables (nodeImport w) |};
            files := files w |};
       trace := [EvAssignIds] |}.
Proof. reflexivity. Qed.

Lemma main_after_merge (w : World) :
  is_done (outcome (merge_node_sources config args w)) = true →
  let w2 := final (reset_node_ids (final (merge_node_sources config args w))) in
  main config args w =
    {| outcome := outcome (build_and_output config args w2);
       final := final (build_and_output config args w2);
       trace := trace (merge_node_sources config args w)
                ++ EvAssignIds :: trace (build_and_output config args w2) |}.
Proof.
  intros Hd. unfold main.
  destruct (outcome (merge_node_sources config args w)) as [[]|f] eqn:Hm; [|done].
  rewrite (run_bind_done _ _ _ _ Hm). reflexivity.
Qed.

Lemma node_sources_rank (src : Event) : src ∈ node_sources → 1 ≤ rank src ≤ 4.
Proof.
  unfold node_sources. rewrite !elem_of_cons, elem_of_nil.
  intros He. destruct_or!; subst src; simpl; lia.
Qed.

Lemma node_sources_mandatory (src : Event) : src ∈ node_sources → src ∈ mandatory.
Proof. unfold mandatory. rewrite elem_of_app. tauto. Qed.

(** C1.  Identifier assignment runs exactly once in a run that reaches the
    triangulation (and every run that returns does), after all four node sources (clustered cities, metropolis
    hubs, cable landing points, cable waypoints) have been merged and
    strictly before the Delaunay triangulation is built; and when the merged
    store holds N locations, each once and each live, with N within the range
    of [int], the triangulation and everything after it run on a store whose
    identifiers are 0, 1, ..., N-1 in iteration order: exactly the range
    [0, N), without duplicates. *)
Theorem id_assignment_once_before_triangulation (w : World) :
  let r := main config args w in
  let merged := merge_node_sources config args w in
  let N := length (order (store_of (final merged))) in
  (∀ i j, trace r !! i = Some EvAssignIds → trace r !! j = Some EvAssignIds → i = j)
  ∧ (∀ i, trace r !! i = Some EvAssignIds →
       ∀ src, src ∈ node_sources → ∃ k, k < i ∧ trace r !! k = Some src)
  ∧ (∀ i k src, trace r !! i = Some EvAssignIds → trace r !! k = Some src →
       src ∈ node_sources → k < i)
  ∧ (∀ j, trace r !! j = Some EvDelaunay →
       ∃ i, i < j ∧ trace r !! i = Some EvAssignIds)
  ∧ (is_done (outcome r) = true → EvAssignIds ∈ trace r ∧ EvDelaunay ∈ trace r)
  ∧ (is_done (outcome merged) = true →
     valid_store (store_of (final merged)) →
     (Z.of_nat N ≤ Cxx.INT_MAX)%Z →
     let w2 := final (reset_node_ids (final merged)) in
     location_ids (store_of w2) = Some <$> seqZ 0 (Z.of_nat N)
     ∧ NoDup (location_ids (store_of w2))
     ∧ (∀ z, Some z ∈ location_ids (store_of w2) ↔ (0 ≤ z < Z.of_nat N)%Z)
     ∧ length (order (store_of w2)) = N
     ∧ r = {| outcome := outcome (build_and_output config args w2);
              final := final (build_and_output config args w2);
              trace := trace merged
                       ++ EvAssignIds :: trace (build_and_output config args w2) |}).
Proof.
  intros r merged N. split_and!.
  - intros i j Hi Hj. by apply (main_once config args w i j EvAssignIds).
  - intros i Hi src Hsrc.
    apply (main_preceded config args w i src EvAssignIds); [| |done].
    + by apply mandatory_in_schedule, node_sources_mandatory.
    + apply node_sources_rank in Hsrc. simpl. lia.
  - intros i k src Hi Hk Hsrc. apply node_sources_rank in Hsrc.
    destruct (lt_eq_lt_dec k i) as [[Hlt|Heq]|Hgt]; [done| |].
    + subst k. fold r in Hi. rewrite Hi in Hk. injection Hk as <-. simpl in Hsrc. lia.
    + destruct (main_in_order config args w i k _ _ Hgt Hi Hk) as [Hr|[Hr _]];
        simpl in Hr; lia.
  - intros j Hj.
    apply (main_preceded config args w j EvAssignIds EvDelaunay); [| simpl; lia | done].
    apply mandatory_in_schedule, in_mandatory. tauto.
  - intros Hd. split; apply main_done_mandatory; try done; apply in_mandatory; tauto.
  - intros Hd Hv Hmax w2.
    assert (Hw2 : store_of w2 = reset_ids (store_of (final merged))) by reflexivity.
    destruct (reset_ids_spec (store_of (final merged)) Hv Hmax) as (Hids & Hord & _).
    rewrite Hw2, Hids, Hord. split_and!.
    + done.
    + apply NoDup_fmap_2; [intros ? ?; congruence | apply NoDup_seqZ].
    + intros z. rewrite list_elem_of_fmap. split.
      * intros (z' & [= <-] & Hz). apply elem_of_seqZ in Hz. lia.
      * intros Hz. exists z. split; [done|]. apply elem_of_seqZ. lia.
    + done.
    + by apply main_after_merge.
Qed.

End Identifiers.

(** ** What a call in the schedule tells about the configuration *)

Section ScheduleInversion.
Context `{Collaborators}.
Variable config : Config.
Variable args : CMDArgs.

Lemma main_earlier (w : World) (i j : nat) (a b : Event) :
  rank a < rank b →
  trace (main config args w) !! i = Some a →
  trace (main config args w) !! j = Some b →
  i < j.
Proof.
  intros Hab Hi Hj. destruct (lt_eq_lt_dec i j) as [[Hlt|Heq]|Hgt]; [done| |].
  - subst j. rewrite Hi in Hj. injection Hj as ->. lia.
  - destruct (main_in_order config args w j i b a Hgt Hj Hi) as [?|[? ?]]; lia.
Qed.

Lemma choose_json_file_name_spec (cli name : string) :
  choose_json_file_name cli name = if decide (cli = "") then name else cli.
Proof. unfold choose_json_file_name. by destruct cli. Qed.

Lemma schedule_inv (e : Event) :
  e ∈ schedule config args →
  match e with
  | EvDensityFilter => get_bool config "lengthFilter.enable" = Some true
  | EvKml _ => kmlOutputEnabled args = true
  | EvGraphOutput => graphOutputEnabled args = true
  | EvSimAddNode n =>
      simNodesJSONFile args ≠ ""
      ∧ ∃ nodes, Json_parse_nodes (simNodesJSONFile args) = Some nodes ∧ n ∈ nodes
  | EvJsonWrite pretty file =>
      jsonOutputEnabled args = true
      ∧ ∃ name,
          get_string (subConfig config "json_graph_output") "filename" = Some name
          ∧ get_bool (subConfig config "json_graph_output") "pretty_print" = Some pretty
          ∧ file = choose_json_file_name (jsonOutputFile args) name
  | _ => True
  end.
Proof.
  unfold schedule, sched_merge, sched_cities, sched_cables.
  rewrite !elem_of_app, !elem_of_cons, !elem_of_nil. intros He.
  destruct_or!; try (subst e; exact I); try done.
  - destruct (Bool.eqb _ _) in He; by subst e.
  - unfold sched_kml in He. destruct (kmlOutputEnabled args) eqn:Hk.
    + apply list_elem_of_singleton in He. by subst e.
    + by apply elem_of_nil in He.
  - unfold sched_density, flag in He.
    destruct (get_bool config "lengthFilter.enable") as [[]|]; simpl in He.
    + apply list_elem_of_singleton in He. by subst e.
    + by apply elem_of_nil in He.
    + by apply elem_of_nil in He.
  - unfold sched_kml in He. destruct (kmlOutputEnabled args) eqn:Hk.
    + apply list_elem_of_singleton in He. by subst e.
    + by apply elem_of_nil in He.
  - unfold sched_graph_output in He. destruct (graphOutputEnabled args) eqn:Hg.
    + apply list_elem_of_singleton in He. by subst e.
    + by apply elem_of_nil in He.
  - unfold sched_sim in He. apply elem_of_cons in He as [->|He]; [done|].
    destruct (simNodesJSONFile args) as [|c rest] eqn:Hf; simpl in He.
    + by apply elem_of_nil in He.
    + destruct (Json_parse_nodes (String c rest)) as [nodes|]; simpl in He.
      * apply list_elem_of_fmap in He as (n & -> & Hn). split; [done|]. by exists nodes.
      * by apply elem_of_nil in He.
  - unfold sched_json in He. destruct (jsonOutputEnabled args) eqn:Hj.
    + simpl in He.
      destruct (get_string _ _) as [name|] eqn:Hn;
        [destruct (get_bool _ _) as [pretty|] eqn:Hp|].
      * apply list_elem_of_singleton in He. subst e. split; [done|]. by exists name.
      * by apply elem_of_nil in He.
      * by apply elem_of_nil in He.
    + by apply elem_of_nil in He.
Qed.

Lemma main_trace_elem (w : World) (e : Event) :
  e ∈ trace (main config args w) → e ∈ schedule config args.
Proof.
  intros [i Hi]%list_elem_of_lookup. apply list_elem_of_lookup. exists i.
  by eapply main_trace_in_schedule.
Qed.

End ScheduleInversion.

(** ** Ground-truth cables, simulation nodes, density filter *)

Section Ordering.
Context `{Collaborators}.
Variable config : Config.
Variable args : CMDArgs.


(** C5 (as amended).  Every simulation-node record that is inserted comes
    from the parsed JSON file and is inserted after the connectivity pruner
    has run: the pruner's call precedes every insertion, and none follows
    one.  A run that returns has inserted every record of the file. *)
Theorem sim_nodes_added_after_pruning (w : World) :
  let t := trace (main config args w) in
  (∀ i n, t !! i = Some (EvSimAddNode n) →
     (∃ j, j < i ∧ t !! j = Some EvPrune)
     ∧ (∀ j, t !! j = Some EvPrune → j < i)
     ∧ (∃ nodes, Json_parse_nodes (simNodesJSONFile args) = Some nodes ∧ n ∈ nodes))
  ∧ (is_done (outcome (main config args w)) = true →
     simNodesJSONFile args ≠ "" →
     ∀ nodes, Json_parse_nodes (simNodesJSONFile args) = Some nodes →
     ∀ n, n ∈ nodes → EvSimAddNode n ∈ t).
Proof.
  intros t. split.
  - intros i n Hi. split_and!.
    + apply (main_preceded config args w i _ (EvSimAddNode n)); [| simpl; lia | done].
      apply mandatory_in_schedule, in_mandatory. tauto.
    + intros j Hj.
      apply (main_earlier config args w j i EvPrune (EvSimAddNode n));
        [simpl; lia|done..].
    + assert (He : EvSimAddNode n ∈ schedule config args).
      { apply main_trace_elem with w. by eapply list_elem_of_lookup_2. }
      apply schedule_inv in He. tauto.
  - intros Hd Hfile nodes Hparse n Hn. unfold t.
    rewrite (main_trace_done config args w Hd). unfold schedule.
    do 9 (apply elem_of_app; right). apply elem_of_app. left.
    unfold sched_sim. rewrite Hparse. right.
    destruct (simNodesJSONFile args); [done|]. simpl.
    apply list_elem_of_fmap. by exists n.
Qed.

(** C6.  With [lengthFilter.enable] false the density stage calls nothing
    and changes nothing: it hands on the same graph in the same world, and
    no run of [main] ever calls the density filter. *)
Theorem density_filter_disabled_unchanged (g : BaseTopology) (w : World) :
  get_bool config "lengthFilter.enable" = Some false →
  apply_density_filter config g w = {| outcome := Done g; final := w; trace := [] |}
  ∧ EvDensityFilter ∉ trace (main config args w).
Proof.
  intros Hf. split.
  - unfold apply_density_filter. rewrite run_bind. unfold config_get.
    rewrite Hf. reflexivity.
  - intros He%main_trace_elem%schedule_inv. congruence.
Qed.

End Ordering.

(** ** Clustering preconditions *)

Section Clustering.
Context `{Collaborators}.
Variable config : Config.
Variable args : CMDArgs.

Lemma stops_bind_l {A B} (n : nat) (m : M A) (k : A → M B) :
  stops_before n m → stops_before n (m ≫= k).
Proof.
  intros Hm w. destruct (Hm w) as [Ha Ht]. rewrite run_bind.
  destruct (outcome (m w)); [done|]. by split.
Qed.

Lemma stops_bind_r {A B} (n : nat) (m : M A) (k : A → M B) :
  stays_before n m → (∀ a, stops_before n (k a)) → stops_before n (m ≫= k).
Proof.
  intros Hm Hk w. rewrite run_bind. destruct (outcome (m w)) as [a|f]; simpl.
  - destruct (Hk a (final (m w))) as [Ha Ht]. split; [done|].
    apply Forall_app. split; [apply Hm | done].
  - split; [done | apply Hm].
Qed.

Lemma emits_stays_before {A} (n : nat) (S : list Event) (m : M A) :
  emits S m → Forall (λ e, rank e < n) S → stays_before n m.
Proof.
  intros Hm HS w. destruct (Hm w) as [[k ->] _].
  by apply Forall_app in HS as [? _].
Qed.

Lemma config_get_run {A} (get : Config → string → option A) c key (w : World) :
  config_get get c key w =
    match get c key with
    | Some a => {| outcome := Done a; final := w; trace := [] |}
    | None =>
        {| outcome := Abort (ConfigError (cfg_path c +:+ key));
           final := w; trace := [] |}
    end.
Proof. unfold config_get. by destruct (get c key). Qed.

Lemma cxx_assert_run (c : bool) (t : string) (w : World) :
  cxx_assert c t w =
    if c then {| outcome := Done (); final := w; trace := [] |}
    else {| outcome := Abort (AssertionFailed t); final := w; trace := [] |}.
Proof. by destruct c. Qed.





End Clustering.

(** ** JSON output *)

Section JsonOutput.
Context `{Collaborators}.
Variable config : Config.
Variable args : CMDArgs.

Lemma json_output_done (g : BaseTopology) (w : World) :
  jsonOutputEnabled args = true →
  is_done (outcome (json_output config args g w)) = true →
  ∃ name pretty,
    get_string (subConfig config "json_graph_output") "filename" = Some name
    ∧ get_bool (subConfig config "json_graph_output") "pretty_print" = Some pretty
    ∧ files (final (json_output config args g w))
      = (choose_json_file_name (jsonOutputFile args) name, OutJson pretty g)
        :: files w.
Proof.
  intros He. unfold json_output. rewrite He, run_bind, config_get_run.
  destruct (get_string _ _) as [name|]; simpl; [|done].
  rewrite run_bind, config_get_run.
  destruct (get_bool _ _) as [pretty|]; simpl; [|done].
  intros _. by exists name, pretty.
Qed.

Lemma bind_done_inv {A B} (m : M A) (k : A → M B) (w : World) :
  is_done (outcome ((m ≫= k) w)) = true →
  ∃ a, outcome (m w) = Done a
       ∧ is_done (outcome (k a (final (m w)))) = true
       ∧ final ((m ≫= k) w) = final (k a (final (m w))).
Proof.
  rewrite run_bind. destruct (outcome (m w)) as [a|f]; [|done].
  simpl. intros Hd. by exists a.
Qed.

(** A run of [main] that returns ends with the JSON output stage. *)
Lemma main_done_json (w : World) :
  is_done (outcome (main config args w)) = true →
  ∃ g w', is_done (outcome (json_output config args g w')) = true
          ∧ final (main config args w) = final (json_output config args g w').
Proof.
  unfold main, build_and_output. intros Hd.
  repeat (apply bind_done_inv in Hd as (? & ? & Hd & ->)).
  match goal with
  | Hj : outcome (json_output config args ?g ?w') = Done _ |- _ =>
      exists g, w'; rewrite Hj; by split
  end.
Qed.

(** C10.  A JSON graph file is written only when JSON output is enabled, and
    under the name given on the command line when that name is not empty,
    and only otherwise under the [filename] entry of the [json_graph_output]
    configuration; a run with JSON output enabled that returns has written
    the graph under that name, last of all files. *)
Theorem json_file_name_precedence (w : World) :
  let r := main config args w in
  let jsonGraphConfig := subConfig config "json_graph_output" in
  (∀ pretty file, EvJsonWrite pretty file ∈ trace r →
     jsonOutputEnabled args = true
     ∧ ∃ name, get_string jsonGraphConfig "filename" = Some name
               ∧ file = if decide (jsonOutputFile args = "") then name
                        else jsonOutputFile args)
  ∧ (jsonOutputEnabled args = true → is_done (outcome r) = true →
     ∃ name pretty g rest,
       get_string jsonGraphConfig "filename" = Some name
       ∧ let file := if decide (jsonOutputFile args = "") then name
                     else jsonOutputFile args in
         EvJsonWrite pretty file ∈ trace r
         ∧ files (final r) = (file, OutJson pretty g) :: rest).
Proof.
  intros r jsonGraphConfig. split.
  - intros pretty file He%main_trace_elem%schedule_inv.
    destruct He as (Hen & name & Hn & _ & ->). split; [done|].
    exists name. split; [done|]. apply choose_json_file_name_spec.
  - intros Hen Hd.
    destruct (main_done_json w Hd) as (g & w' & Hj & Hfin).
    destruct (json_output_done g w' Hen Hj) as (name & pretty & Hn & Hp & Hfiles).
    exists name, pretty, g, (files w'). split; [done|].
    rewrite <- choose_json_file_name_spec. split.
    + unfold r. rewrite (main_trace_done config args w Hd).
      unfold schedule, sched_json. rewrite Hen, Hn, Hp.
      do 10 (apply elem_of_app; right). by apply list_elem_of_singleton.
    + unfold r. by rewrite Hfin.
Qed.

End JsonOutput.

(* ===================================================================== *)
(** * The graph stages in the plane *)
(* ===================================================================== *)

Module GraphStages.
Import Topo Triangulation.

Section EdgeFilters.
Context {W : Type}.
Implicit Types (g : TopologyGraph W) (e : Edge W).

Lemma List_filter_sublist {A} (f : A → bool) (l : list A) :
  List.filter f l `sublist_of` l.
Proof.
  induction l as [|x l IH]; simpl; [constructor|].
  destruct (f x); by constructor.
Qed.

Lemma erase_edge_nodes u v g : g_nodes (erase_edge u v g) = g_nodes g.
Proof. reflexivity. Qed.

Lemma erase_edge_sublist u v g :
  g_edges (erase_edge u v g) `sublist_of` g_edges g.
Proof. apply List_filter_sublist. Qed.

Lemma examine_edges_spec (occupied : Edge W → bool) (todo : list (Edge W)) g :
  g_nodes (examine_edges occupied todo g) = g_nodes g
  ∧ g_edges (examine_edges occupied todo g) `sublist_of` g_edges g.
Proof.
  revert g. induction todo as [|e todo IH]; intros g; simpl; [done|].
  destruct (IH (if occupied e then erase_edge (e_src e) (e_dst e) g else g))
    as [Hn He].
  rewrite Hn. destruct (occupied e); [|done].
  split; [done|]. etrans; [exact He | apply erase_edge_sublist].
Qed.

(** C2.  The beta-skeleton filter and the density filter only remove edges:
    after each stage the edge list is a sub-list of the one before (no edge
    added, none altered, in particular no weight), and the node list is the
    same; so the edges after both stages, and after the beta-skeleton filter
    alone, are among those of the graph the triangulator produced. *)
Theorem filters_only_remove_edges (β : Q)
    (implausible : option point → option point → W → bool) g :
  let g1 := filterBetaSkeletonEdges β g in
  let g2 := filterByLength implausible g1 in
  g_edges g1 `sublist_of` g_edges g
  ∧ g_nodes g1 = g_nodes g
  ∧ g_edges g2 `sublist_of` g_edges g1
  ∧ g_nodes g2 = g_nodes g1
  ∧ (∀ e, e ∈ g_edges g1 → e ∈ g_edges g)
  ∧ (∀ e, e ∈ g_edges g2 → e ∈ g_edges g1)
  ∧ (∀ (wt : point → point → W) nodes T,
       g = triangulation_graph wt nodes T →
       ∀ e, e ∈ g_edges g1 → e ∈ g_edges (triangulation_graph wt nodes T)).
Proof.
  intros g1 g2.
  destruct (examine_edges_spec (lune_occupied β (g_nodes g)) (g_edges g) g)
    as [Hn1 He1].
  destruct (examine_edges_spec (edge_implausible implausible (g_nodes g1))
              (g_edges g1) g1) as [Hn2 He2].
  split_and!; try done.
  - intros e He. by eapply elem_of_sublist.
  - intros e He. by eapply elem_of_sublist.
  - intros wt nodes T <- e He. by eapply elem_of_sublist.
Qed.

End EdgeFilters.

Section Connectivity.
Context {W : Type}.
Implicit Types (g : TopologyGraph W) (S : list Z).

Lemma memZ_spec (x : Z) (l : list Z) : memZ x l = true ↔ x ∈ l.
Proof.
  unfold memZ. rewrite existsb_exists. split.
  - intros (y & Hy & ->%Z.eqb_eq). by apply list_elem_of_In.
  - intros Hx. exists x. split; [by apply list_elem_of_In | apply Z.eqb_refl].
Qed.

Lemma memZ_false (x : Z) (l : list Z) : memZ x l = false ↔ x ∉ l.
Proof. rewrite <- memZ_spec. by destruct (memZ x l). Qed.

Lemma joins_spec (e : Edge W) (u v : Z) :
  joins e u v = true ↔
    (e_src e = u ∧ e_dst e = v) ∨ (e_src e = v ∧ e_dst e = u).
Proof.
  unfold joins. rewrite orb_true_iff, !andb_true_iff, !Z.eqb_eq. tauto.
Qed.

Lemma adjacent_spec g (u v : Z) :
  adjacent g u v = true ↔ ∃ e, e ∈ g_edges g ∧ joins e u v = true.
Proof.
  unfold adjacent. rewrite existsb_exists.
  split; intros (e & He & Hj); exists e; split; try done; by apply list_elem_of_In.
Qed.

Lemma adjacent_sym g (u v : Z) : adjacent g u v = true → adjacent g v u = true.
Proof.
  rewrite !adjacent_spec. intros (e & He & Hj). exists e. split; [done|].
  apply joins_spec. apply joins_spec in Hj. tauto.
Qed.

Lemma adjacent_nodes g (u v : Z) :
  wf_graph g → adjacent g u v = true → u ∈ node_ids g ∧ v ∈ node_ids g.
Proof.
  intros [_ Hwf] (e & He & Hj)%adjacent_spec. apply joins_spec in Hj.
  destruct (Hwf e He) as [Hs Hd]. destruct Hj as [[<- <-]|[<- <-]]; by split.
Qed.

Lemma connected_sym g (u v : Z) : connected g u v → connected g v u.
Proof.
  induction 1 as [x|x y z Hxy _ IH]; [apply rtc_refl|].
  eapply rtc_r; [exact IH|]. by apply adjacent_sym.
Qed.

Lemma frontier_spec g S (v : Z) :
  v ∈ frontier g S ↔
    v ∈ node_ids g ∧ (v ∉ S) ∧ ∃ u, u ∈ S ∧ adjacent g u v = true.
Proof.
  unfold frontier. rewrite list_elem_of_In, filter_In, <- list_elem_of_In.
  rewrite andb_true_iff, negb_true_iff, memZ_false, existsb_exists.
  split; intros (Hv & Hn & u & Hu & Ha); (split_and!; [done|done|]);
    exists u; split; try done; by apply list_elem_of_In.
Qed.

Lemma grow_good g S : NoDup (node_ids g) → good g S → good g (grow g S).
Proof.
  intros Hnd [HS Hin]. unfold grow. split.
  - apply NoDup_app. split_and!; [done| |].
    + intros x Hx (_ & Hx' & _)%frontier_spec. done.
    + unfold frontier. eapply (sublist_NoDup _ (node_ids g)); [done | apply List_filter_sublist].
  - intros x [Hx|Hx%frontier_spec]%elem_of_app; [by apply Hin | tauto].
Qed.

Lemma grow_n_good g (n : nat) S :
  NoDup (node_ids g) → good g S → good g (grow_n g n S).
Proof.
  intros Hnd. revert S. induction n as [|n IH]; intros S HS; simpl; [done|].
  by apply IH, grow_good.
Qed.

Lemma grow_n_incl g (n : nat) S (x : Z) : x ∈ S → x ∈ grow_n g n S.
Proof.
  revert S. induction n as [|n IH]; intros S Hx; simpl; [done|].
  apply IH. unfold grow. apply elem_of_app. by left.
Qed.

Lemma grow_n_closed g (n : nat) S : frontier g S = [] → grow_n g n S = S.
Proof.
  intros Hf. induction n as [|n IH]; simpl; [done|].
  unfold grow. by rewrite Hf, app_nil_r.
Qed.

(** After enough rounds nothing is left to add. *)
Lemma grow_n_saturates g (n : nat) S :
  NoDup (node_ids g) → good g S →
  length (node_ids g) ≤ length S + n →
  frontier g (grow_n g n S) = [].
Proof.
  intros Hnd. revert S. induction n as [|n IH]; intros S HS Hlen; simpl.
  - destruct HS as [HS Hin]. apply elem_of_nil_inv. intros x Hx.
    apply frontier_spec in Hx as (Hx & Hn & _). apply Hn.
    assert (S ≡ₚ node_ids g) as ->; [|done].
    apply submseteq_length_Permutation; [by apply NoDup_submseteq | lia].
  - destruct (frontier g S) as [|x l] eqn:Hf.
    + unfold grow. rewrite Hf, app_nil_r. by rewrite grow_n_closed.
    + apply IH; [by apply grow_good|].
      unfold grow. rewrite length_app, Hf. simpl. lia.
Qed.

Lemma grow_n_sound g (n : nat) S (v : Z) :
  (∀ u, u ∈ S → connected g v u) →
  ∀ u, u ∈ grow_n g n S → connected g v u.
Proof.
  revert S. induction n as [|n IH]; intros S HS u Hu; simpl in Hu; [by apply HS|].
  apply (IH (grow g S)); [|done].
  intros y [Hy|Hy%frontier_spec]%elem_of_app; [by apply HS|].
  destruct Hy as (_ & _ & x & Hx & Hxy). eapply rtc_r; [by apply HS | done].
Qed.

Lemma closed_connected g S (v u : Z) :
  wf_graph g → frontier g S = [] → v ∈ S → connected g v u → u ∈ S.
Proof.
  intros Hwf Hf Hv Hc. induction Hc as [x|x y z Hxy _ IH]; [done|].
  apply IH. destruct (decide (y ∈ S)) as [|Hy]; [done|].
  assert (y ∈ frontier g S) as Hin.
  { apply frontier_spec. split_and!; [|done|by exists x].
    by destruct (adjacent_nodes g x y Hwf Hxy). }
  rewrite Hf in Hin. by apply elem_of_nil in Hin.
Qed.

Lemma component_good g (v : Z) :
  wf_graph g → v ∈ node_ids g → good g (component g v).
Proof.
  intros [Hnd _] Hv. apply grow_n_good; [done|]. split.
  - apply NoDup_singleton.
  - by intros x ->%list_elem_of_singleton.
Qed.

(** The computed component of a node holds exactly the nodes joined to it by
    a path. *)
Lemma component_spec g (v u : Z) :
  wf_graph g → v ∈ node_ids g →
  u ∈ component g v ↔ connected g v u.
Proof.
  intros Hwf Hv. split.
  - apply grow_n_sound. intros x ->%list_elem_of_singleton. apply rtc_refl.
  - apply closed_connected; [done| |].
    + destruct Hwf as [Hnd _]. apply grow_n_saturates; [done| |].
      * split; [apply NoDup_singleton | by intros x ->%list_elem_of_singleton].
      * unfold node_ids. rewrite length_map. simpl. lia.
    + apply grow_n_incl. by apply list_elem_of_singleton.
Qed.

Lemma components_from_spec g (todo : list Z) (found : list (list Z)) :
  (∀ c, c ∈ found → ∃ r, r ∈ node_ids g ∧ c = component g r) →
  (∀ v, v ∈ todo → v ∈ node_ids g) →
  (∀ c, c ∈ components_from g todo found →
        ∃ r, r ∈ node_ids g ∧ c = component g r)
  ∧ (∀ v, v ∈ todo → ∃ c, c ∈ components_from g todo found ∧ v ∈ c)
  ∧ (∀ c, c ∈ found → c ∈ components_from g todo found).
Proof.
  revert found. induction todo as [|v todo IH]; intros found Hfound Htodo; simpl.
  - split_and!; [done| |done]. intros v Hv. by apply elem_of_nil in Hv.
  - assert (Hrest : ∀ x, x ∈ todo → x ∈ node_ids g)
      by (intros x Hx; apply Htodo; by right).
    destruct (existsb (memZ v) found) eqn:Hseen.
    + destruct (IH found Hfound Hrest) as (H1 & H2 & H3). split_and!; [done| |done].
      intros x [-> |Hx]%elem_of_cons; [|by apply H2].
      apply existsb_exists in Hseen as (c & Hc%list_elem_of_In & Hvc%memZ_spec).
      exists c. split; [by apply H3 | done].
    + destruct (IH (found ++ [component g v])) as (H1 & H2 & H3); [|done|].
      { intros c [Hc| ->%list_elem_of_singleton]%elem_of_app; [by apply Hfound|].
        exists v. split; [|done]. apply Htodo. by left. }
      split_and!; [done| |].
      * intros x [-> |Hx]%elem_of_cons; [|by apply H2].
        exists (component g v). split.
        -- apply H3, elem_of_app. right. by apply list_elem_of_singleton.
        -- apply grow_n_incl. by apply list_elem_of_singleton.
      * intros c Hc. apply H3, elem_of_app. by left.
Qed.

Lemma connectedComponents_spec g :
  (∀ c, c ∈ connectedComponents g → ∃ r, r ∈ node_ids g ∧ c = component g r)
  ∧ (∀ v, v ∈ node_ids g → ∃ c, c ∈ connectedComponents g ∧ v ∈ c).
Proof.
  destruct (components_from_spec g (node_ids g) []) as (H1 & H2 & _); [|done|done].
  intros c Hc. by apply elem_of_nil in Hc.
Qed.

Lemma largest_spec (cs : list (list Z)) :
  cs ≠ [] →
  largest cs ∈ cs ∧ ∀ c, c ∈ cs → length c ≤ length (largest cs).
Proof.
  induction cs as [|c cs IH]; [done|]. intros _. simpl.
  destruct cs as [|c' cs'].
  - simpl. split; [by left|]. by intros x ->%list_elem_of_singleton.
  - destruct IH as [Hin Hmax]; [done|].
    destruct (Nat.leb_spec (length (largest (c' :: cs'))) (length c)) as [Hle|Hlt].
    + split; [by left|]. intros x [-> |Hx]%elem_of_cons; [done|].
      specialize (Hmax x Hx). lia.
    + split; [by right|]. intros x [-> |Hx]%elem_of_cons; [lia | by apply Hmax].
Qed.

(** Of several largest components the first one listed is chosen. *)
Lemma largest_first (cs : list (list Z)) :
  cs ≠ [] →
  ∃ i, cs !! i = Some (largest cs)
       ∧ ∀ j c, j < i → cs !! j = Some c → length c < length (largest cs).
Proof.
  induction cs as [|c cs IH]; [done|]. intros _. simpl.
  destruct (Nat.leb_spec (length (largest cs)) (length c)) as [Hle|Hlt].
  - exists 0. split; [done|]. intros j x Hj. lia.
  - destruct IH as (i & Hi & Hbefore).
    { intros ->. simpl in Hlt. lia. }
    exists (Datatypes.S i). split; [done|].
    intros [|j] x Hj Hx; simpl in Hx.
    + injection Hx as <-. done.
    + apply (Hbefore j); [lia | done].
Qed.

End Connectivity.

Section Pruning.
Context {W : Type}.
Implicit Types (g : TopologyGraph W).

Lemma restrict_nodes (keep : list Z) g (n : GeoNode) :
  n ∈ g_nodes (restrict keep g) ↔ n ∈ g_nodes g ∧ gn_id n ∈ keep.
Proof.
  unfold restrict. simpl.
  by rewrite list_elem_of_In, filter_In, <- list_elem_of_In, memZ_spec.
Qed.

Lemma restrict_node_ids (keep : list Z) g (v : Z) :
  v ∈ node_ids (restrict keep g) ↔ v ∈ node_ids g ∧ v ∈ keep.
Proof.
  unfold node_ids. split.
  - intros Hv%list_elem_of_In%in_map_iff.
    destruct Hv as (n & <- & Hn%list_elem_of_In%restrict_nodes).
    split; [|tauto]. apply list_elem_of_In, in_map_iff.
    exists n. split; [done|]. apply list_elem_of_In. tauto.
  - intros [Hv%list_elem_of_In%in_map_iff Hk].
    destruct Hv as (n & <- & Hn%list_elem_of_In).
    apply list_elem_of_In, in_map_iff. exists n. split; [done|].
    apply list_elem_of_In, restrict_nodes. tauto.
Qed.

Lemma restrict_edges (keep : list Z) g (e : Edge W) :
  e ∈ g_edges (restrict keep g) ↔
    e ∈ g_edges g ∧ e_src e ∈ keep ∧ e_dst e ∈ keep.
Proof.
  unfold restrict. simpl.
  by rewrite list_elem_of_In, filter_In, <- list_elem_of_In, andb_true_iff,
    !memZ_spec.
Qed.

Lemma restrict_adjacent (keep : list Z) g (u v : Z) :
  adjacent g u v = true → u ∈ keep → v ∈ keep →
  adjacent (restrict keep g) u v = true.
Proof.
  rewrite !adjacent_spec. intros (e & He & Hj) Hu Hv. exists e. split; [|done].
  apply restrict_edges. apply joins_spec in Hj.
  destruct Hj as [[-> ->]|[-> ->]]; tauto.
Qed.

(** A path from [r] stays inside the component of [r], so it survives the
    restriction to that component. *)
Lemma restrict_connected g (r u : Z) :
  wf_graph g → r ∈ node_ids g →
  connected g r u → connected (restrict (component g r) g) r u.
Proof.
  intros Hwf Hr. revert u.
  apply (rtc_ind_r (λ u, connected (restrict (component g r) g) r u));
    [apply rtc_refl|].
  intros y z Hry Hyz IH.
  eapply rtc_r; [exact IH|]. apply restrict_adjacent; [done| |].
  - by apply component_spec.
  - apply component_spec; [done..|]. by eapply rtc_r.
Qed.

(** C3.  On a graph that has nodes and meets the graph invariant, the pruned
    graph has exactly one connected component (it has a node and any two of
    its nodes are joined by a path inside it); its nodes are exactly one
    connected component of the graph before; no set of mutually connected
    nodes of the graph before is larger; all other nodes are gone and exactly
    the edges between kept nodes remain.  The choice is a function of the
    graph: of several largest components, the first in node order. *)
Theorem prune_keeps_largest_component g :
  wf_graph g → g_nodes g ≠ [] →
  let g' := prune g in
  g_nodes g' ≠ []
  ∧ (∀ u v, u ∈ node_ids g' → v ∈ node_ids g' → connected g' u v)
  ∧ (∀ u, u ∈ node_ids g' → ∀ v, v ∈ node_ids g' ↔ connected g u v)
  ∧ (∀ C : list Z, NoDup C →
       (∀ u, u ∈ C → u ∈ node_ids g) →
       (∀ u v, u ∈ C → v ∈ C → connected g u v) →
       length C ≤ length (g_nodes g'))
  ∧ g_nodes g' `sublist_of` g_nodes g
  ∧ g_edges g' `sublist_of` g_edges g
  ∧ (∀ n, n ∈ g_nodes g' ↔ n ∈ g_nodes g ∧ gn_id n ∈ node_ids g')
  ∧ (∀ e, e ∈ g_edges g' ↔
          e ∈ g_edges g ∧ e_src e ∈ node_ids g' ∧ e_dst e ∈ node_ids g')
  ∧ wf_graph g'
  ∧ (∃ i keep, connectedComponents g !! i = Some keep
       ∧ g' = restrict keep g
       ∧ ∀ j c, j < i → connectedComponents g !! j = Some c →
                length c < length keep).
Proof.
  intros Hwf Hne g'.
  destruct (connectedComponents_spec g) as [Hcomp Hcover].
  assert (Hcs : connectedComponents g ≠ []).
  { destruct (g_nodes g) as [|n ns] eqn:Hn; [done|].
    destruct (Hcover (gn_id n)) as (c & Hc & _).
    - unfold node_ids. rewrite Hn. by left.
    - intros Hnil. rewrite Hnil in Hc. by apply elem_of_nil in Hc. }
  destruct (largest_spec _ Hcs) as [Hin Hmax].
  destruct (Hcomp _ Hin) as (r & Hr & Hkeep).
  assert (Hg' : g' = restrict (component g r) g)
    by (unfold g', prune; by rewrite Hkeep).
  destruct (component_good g r Hwf Hr) as [Hnd Hsub].
  assert (Hids : ∀ v, v ∈ node_ids g' ↔ v ∈ component g r).
  { intros v. rewrite Hg', restrict_node_ids. split; [tauto|]. intros Hv.
    split; [by apply Hsub | done]. }
  assert (Hrr : r ∈ component g r) by (apply component_spec; [done..|apply rtc_refl]).
  assert (Hto : ∀ u, u ∈ node_ids g' → connected g r u).
  { intros u Hu%Hids. by apply component_spec in Hu. }
  split_and!.
  - intros Hnil. apply Hids in Hrr. unfold node_ids in Hrr. rewrite Hnil in Hrr.
    by apply elem_of_nil in Hrr.
  - intros u v Hu%Hto Hv%Hto. rewrite Hg'.
    etrans; [apply connected_sym|]; by apply restrict_connected.
  - intros u Hu%Hto v. rewrite Hids, component_spec by done. split.
    + intros Hv. etrans; [by apply connected_sym | done].
    + intros Huv. by etrans.
  - intros C HC Hin_g Hconn. destruct C as [|c0 C']; [simpl; lia|].
    assert (Hc0 : c0 ∈ node_ids g) by (apply Hin_g; by left).
    destruct (Hcover c0 Hc0) as (c & Hc & Hc0c).
    destruct (Hcomp c Hc) as (r' & Hr' & ->).
    destruct (component_good g c0 Hwf Hc0) as [Hnd0 _].
    trans (length (component g c0)).
    { apply submseteq_length, NoDup_submseteq; [done|].
      intros x Hx. apply component_spec; [done..|]. apply Hconn; [by left | done]. }
    trans (length (component g r')).
    { apply submseteq_length, NoDup_submseteq; [done|].
      intros x Hx%component_spec; [|done..]. apply component_spec; [done..|].
      etrans; [|exact Hx]. by apply component_spec. }
    trans (length (largest (connectedComponents g))); [by apply Hmax|].
    rewrite Hkeep. trans (length (node_ids g')).
    + apply submseteq_length, NoDup_submseteq; [done|]. intros x. apply Hids.
    + unfold node_ids. by rewrite length_map.
  - rewrite Hg'. apply List_filter_sublist.
  - rewrite Hg'. apply List_filter_sublist.
  - intros n. rewrite Hids. rewrite Hg'. apply restrict_nodes.
  - intros e. rewrite !Hids. rewrite Hg'. apply restrict_edges.
  - split.
    + destruct Hwf as [Hnd_g _]. eapply sublist_NoDup; [exact Hnd_g|].
      rewrite Hg'. apply (fmap_sublist gn_id), List_filter_sublist.
    + intros e He. rewrite !Hids. rewrite Hg' in He.
      apply restrict_edges in He. tauto.
  - destruct (largest_first _ Hcs) as (i & Hi & Hbefore).
    by exists i, (largest (connectedComponents g)).
Qed.

End Pruning.

Section UnitSquare.

Ltac by_computation := apply (bool_decide_unpack _); vm_compute; exact I.

Lemma square_triangulations :
  delaunay_triangulations unit_square
  = [[(0, 1, 2); (0, 2, 3)]; [(0, 1, 3); (1, 2, 3)]]%Z.
Proof. vm_compute. reflexivity. Qed.

(** The two opposite corners lie exactly on the circle of each diagonal. *)
Example square_corners_on_diagonal_circle :
  let r2 := ((1 / 2) * (1 / 2) * sqdist (0, 0) (1, 1))%Q in
  (sqdist (1, 0) (lune_centre 1 (0, 0) (1, 1)) == r2)%Q
  ∧ (sqdist (0, 1) (lune_centre 1 (0, 0) (1, 1)) == r2)%Q.
Proof. split; reflexivity. Qed.

(** C9.  Four points forming a unit square have exactly two triangulations
    that meet the contract; each consists of two triangles sharing one
    diagonal, so its edges are the four boundary edges and that diagonal; and
    the beta-skeleton filter with β = 1 removes exactly the diagonal, leaving
    the four boundary edges 0-1, 1-2, 2-3, 3-0: a 4-cycle (every node has
    two edges and the four nodes are one component). *)
Theorem unit_square_beta_skeleton :
  delaunay_triangulations unit_square ≠ []
  ∧ ∀ T, T ∈ delaunay_triangulations unit_square →
      (∃ d t1 t2,
          d ∈ [(0, 2); (1, 3)]%Z ∧ T = [t1; t2]
          ∧ d ∈ triangle_sides t1 ∧ d ∈ triangle_sides t2
          ∧ triangulation_edges T ≡ₚ d :: square_boundary)
      ∧ ∀ (W : Type) (wt : point → point → W),
          let g := triangulation_graph wt unit_square T in
          let g' := filterBetaSkeletonEdges 1 g in
          map endpoints (g_edges g) = triangulation_edges T
          ∧ map endpoints (g_edges g') ≡ₚ square_boundary
          ∧ Forall (λ v, degree g' v = 2) (node_ids g')
          ∧ component g' 0 ≡ₚ node_ids g'.
Proof.
  rewrite square_triangulations. split; [done|].
  intros T HT. rewrite !elem_of_cons, elem_of_nil in HT.
  destruct HT as [->|[->|[]]].
  - split.
    + exists (0, 2)%Z, (0, 1, 2)%Z, (0, 2, 3)%Z.
      split_and!; first [reflexivity | by_computation].
    + intros W wt g g'. split_and!; first [reflexivity | by_computation].
  - split.
    + exists (1, 3)%Z, (0, 1, 3)%Z, (1, 2, 3)%Z.
      split_and!; first [reflexivity | by_computation].
    + intros W wt g g'. split_and!; first [reflexivity | by_computation].
Qed.

End UnitSquare.

End GraphStages.

(* ===================================================================== *)
(** * The pipeline on the concrete world *)
(* ===================================================================== *)

Module Concrete.
Import Demo.

Ltac by_computation := apply (bool_decide_unpack _); vm_compute; exact I.

(** The calls of the run, in order. *)
Example demo_trace :
  trace (main config args world)
  = [EvImportCities; EvOptics Neighbour; EvOptics Metropolis;
     EvImportLandingPoints; EvImportWaypoints; EvAssignIds; EvDelaunay;
     EvKml KmlDelaunay; EvBetaSkeleton; EvDegreeQuery false;
     EvDegreeQuery true; EvImportCableEdges; EvPrune; EvKml KmlGabriel;
     EvGraphOutput; EvNewSimTopo; EvSimAddNode sim_node;
     EvJsonWrite true "cli.json"].
Proof. vm_compute. reflexivity. Qed.

(** The final graph: the square's boundary, the edge 2-4 left by the beta
    filter, and the cable 1-4 added after the filters. *)
Example demo_final_graph :
  ∃ g st, outcome (main config args world) = Done (g, st)
    ∧ Topo.node_ids g = [0; 1; 2; 3; 4]%Z
    ∧ map Topo.endpoints (Topo.g_edges g)
      = [(0, 1); (0, 3); (1, 2); (2, 3); (2, 4); (1, 4)]%Z
    ∧ st = [sim_node].
Proof. eexists _, _. vm_compute. done. Qed.

Example prune_two_clusters :
  Topo.node_ids (Topo.prune two_clusters) = [0; 1; 2]%Z
  ∧ map Topo.endpoints (Topo.g_edges (Topo.prune two_clusters))
    = [(0, 1); (2, 1)]%Z.
Proof. vm_compute. done. Qed.

(** The loop gives a location stored twice the later counter value: the
    range [0, N) needs each location stored once. *)
Example reset_ids_same_pointer_twice :
  location_ids
    (reset_ids
       {| heap := {[ 1%positive := {| node_id := 7; node_data := (0, 0)%Q |} ]};
          order := [1; 1]%positive |})
  = [Some 1; Some 1]%Z.
Proof. vm_compute. reflexivity. Qed.

Example json_file_name_examples :
  choose_json_file_name "cli.json" "graph.json" = "cli.json"
  ∧ choose_json_file_name "" "graph.json" = "graph.json".
Proof. split; reflexivity. Qed.

Lemma demo_merged_store_valid :
  valid_store (store_of (final (merge_node_sources config args world))).
Proof.
  split.
  - by_computation.
  - apply Forall_forall. by_computation.
Qed.

(** C1 on the concrete world: five locations, identifiers 0 to 4. *)
Lemma id_assignment_witness :
  location_ids
    (store_of
       (final (reset_node_ids (final (merge_node_sources config args world)))))
  = Some <$> seqZ 0 5.
Proof.
  destruct (id_assignment_once_before_triangulation config args world)
    as (_ & _ & _ & _ & _ & Hids).
  destruct Hids as (Hids & _).
  - vm_compute. reflexivity.
  - apply demo_merged_store_valid.
  - vm_compute. discriminate.
  - exact Hids.
Defined.


(** C5 as stated fails on the concrete world: the simulation node is
    inserted (call 16) after the pruner has run (call 12). *)
Lemma sim_node_added_after_pruning_counterexample :
  ¬ sim_nodes_injected_before_pruning (trace (main config args world)).
Proof.
  intros Hclaim.
  assert (16 < 12) as Habsurd; [|lia].
  apply (Hclaim 16 12 sim_node); vm_compute; reflexivity.
Qed.

(** C5 as amended, on the concrete world. *)
Lemma sim_nodes_witness :
  ∃ j, j < 16 ∧ trace (main config args world) !! j = Some EvPrune.
Proof.
  destruct (sim_nodes_added_after_pruning config args world) as [Hafter _].
  destruct (Hafter 16 sim_node) as (Hprune & _).
  - vm_compute. reflexivity.
  - exact Hprune.
Defined.

(** C6 on the concrete world, whose configuration disables the filter. *)
Lemma density_filter_witness :
  apply_density_filter config square_graph world
  = {| outcome := Done square_graph; final := world; trace := [] |}.
Proof.
  apply (density_filter_disabled_unchanged config args square_graph world).
  vm_compute. reflexivity.
Defined.


(** C10 on the concrete world: with [cli.json] on the command line the file
    is written under that name; without, under the configured [graph.json]. *)
Lemma json_file_name_witness :
  (jsonOutputEnabled args = true
   ∧ ∃ name,
       get_string (subConfig config "json_graph_output") "filename" = Some name
       ∧ "cli.json" = if decide (jsonOutputFile args = "") then name
                      else jsonOutputFile args)
  ∧ (jsonOutputEnabled args_no_cli_name = true
     ∧ ∃ name,
         get_string (subConfig config "json_graph_output") "filename" = Some name
         ∧ "graph.json" = if decide (jsonOutputFile args_no_cli_name = "") then name
                          else jsonOutputFile args_no_cli_name).
Proof.
  split.
  - apply (proj1 (json_file_name_precedence config args world) true "cli.json").
    apply list_elem_of_lookup_2 with 17. vm_compute. reflexivity.
  - apply (proj1 (json_file_name_precedence config args_no_cli_name world)
             true "graph.json").
    apply list_elem_of_lookup_2 with 17. vm_compute. reflexivity.
Defined.

Lemma two_clusters_wf : Topo.wf_graph two_clusters.
Proof.
  split.
  - by_computation.
  - apply Forall_forall. by_computation.
Qed.

(** C2 on the triangulated unit square. *)
Lemma filters_witness :
  Topo.g_edges (Topo.filterBetaSkeletonEdges 1 square_graph)
    `sublist_of` Topo.g_edges square_graph.
Proof.
  apply (GraphStages.filters_only_remove_edges 1 too_long square_graph).
Defined.

(** C3 on the two clusters: the pruned graph is not empty and any two of its
    nodes are connected in it. *)
Lemma prune_witness :
  Topo.g_nodes (Topo.prune two_clusters) ≠ []
  ∧ ∀ u v, u ∈ Topo.node_ids (Topo.prune two_clusters) →
           v ∈ Topo.node_ids (Topo.prune two_clusters) →
           Topo.connected (Topo.prune two_clusters) u v.
Proof.
  destruct (GraphStages.prune_keeps_largest_component two_clusters)
    as (Hne & Hconn & _).
  - apply two_clusters_wf.
  - discriminate.
  - split; [exact Hne | exact Hconn].
Defined.

(** C9 on the first triangulation of the square. *)
Lemma unit_square_witness :
  map Topo.endpoints
    (Topo.g_edges (Topo.filterBetaSkeletonEdges 1 square_graph))
  ≡ₚ Triangulation.square_boundary.
Proof.
  destruct GraphStages.unit_square_beta_skeleton as [_ Hsq].
  destruct (Hsq [(0, 1, 2); (0, 2, 3)]%Z) as [_ Hbeta].
  - by_computation.
  - apply (proj1 (proj2 (Hbeta Q Topo.sqdist))).
Defined.

End Concrete.

(* ===================================================================== *)
(** * Further properties of the driver *)
(* ===================================================================== *)

(** ** Runs that return *)

Section Returns.
Context `{Collaborators}.

Lemma returns_bind {A B} (m : M A) (k : A → M B) w b w'' :
  returns (m ≫= k) w b w'' →
  ∃ a w', returns m w a w' ∧ returns (k a) w' b w''.
Proof.
  unfold returns. rewrite run_bind.
  destruct (outcome (m w)) as [a|f] eqn:Hm; simpl; [|intros [? _]; done].
  intros [Ho Hf]. by exists a, (final (m w)).
Qed.

Lemma returns_ret {A} (a b : A) w w' :
  returns (mret a : M A) w b w' → b = a ∧ w' = w.
Proof. intros [[= ->] <-]. done. Qed.

Lemma returns_abort {A} (f : Failure) w (a : A) w' :
  returns (abort f : M A) w a w' → False.
Proof. intros [? _]. done. Qed.

Lemma returns_emit (e : Event) w u w' : returns (emit e) w u w' → w' = w.
Proof. intros [_ <-]. done. Qed.

Lemma returns_assert (c : bool) (t : string) w u w' :
  returns (cxx_assert c t) w u w' → c = true ∧ w' = w.
Proof. destruct c; intros [Ho <-]; done. Qed.

Lemma returns_config_get {A} (get : Config → string → option A) c key w a w' :
  returns (config_get get c key) w a w' → get c key = Some a ∧ w' = w.
Proof.
  unfold returns. rewrite config_get_run. destruct (get c key); simpl.
  - intros [[= ->] <-]. done.
  - intros [? _]. done.
Qed.

Lemma returns_call {A} (e : Event) (r : option A) w a w' :
  returns (call e r) w a w' → r = Some a ∧ w' = w.
Proof.
  destruct r as [x|]; intros [Ho <-]; simpl in *; [|done].
  by injection Ho as ->.
Qed.

Lemma returns_get_importer w ni w' :
  returns get_importer w ni w' → ni = nodeImport w ∧ w' = w.
Proof. intros [[= <-] <-]. done. Qed.

Lemma returns_set_importer ni w u w' :
  returns (set_importer ni) w u w' → w' = with_importer ni w.
Proof. intros [_ <-]. done. Qed.

Lemma returns_get_locations w l w' :
  returns get_locations w l w' → l = store_of w ∧ w' = w.
Proof. intros [[= <-] <-]. done. Qed.

Lemma returns_set_locations l w u w' :
  returns (set_locations l) w u w' → w' = with_store l w.
Proof. intros [_ <-]. done. Qed.

Lemma returns_write_file name content w u w' :
  returns (write_file name content) w u w' → w' = with_file name content w.
Proof. intros [_ <-]. done. Qed.

End Returns.

(** Takes apart a hypothesis [returns m w a w'] along the binds of [m]. *)
Ltac inv_returns :=
  repeat match goal with
  | H : returns (_ ≫= _) _ _ _ |- _ =>
      apply returns_bind in H as (? & ? & ? & H)
  | H : returns (mret _) _ _ _ |- _ => apply returns_ret in H as [? ?]
  | H : returns (abort _) _ _ _ |- _ => by apply returns_abort in H
  | H : returns (emit _) _ _ _ |- _ => apply returns_emit in H
  | H : returns (cxx_assert _ _) _ _ _ |- _ => apply returns_assert in H as [? ?]
  | H : returns (config_get _ _ _) _ _ _ |- _ =>
      apply returns_config_get in H as [? ?]
  | H : returns (call _ _) _ _ _ |- _ => apply returns_call in H as [? ?]
  | H : returns get_importer _ _ _ |- _ => apply returns_get_importer in H as [? ?]
  | H : returns (set_importer _) _ _ _ |- _ => apply returns_set_importer in H
  | H : returns get_locations _ _ _ |- _ => apply returns_get_locations in H as [? ?]
  | H : returns (set_locations _) _ _ _ |- _ => apply returns_set_locations in H
  | H : returns (write_file _ _) _ _ _ |- _ => apply returns_write_file in H
  end.

Section StageReturns.
Context `{Collaborators}.
Variable config : Config.
Variable args : CMDArgs.

Lemma read_city_positions_returns w u w' :
  returns (read_city_positions config args) w u w' →
  ∃ ni, import_cities_of config args (nodeImport w) = Some ni
        ∧ w' = with_importer ni w.
Proof.
  unfold read_city_positions, import_cities_of. intros Hr.
  apply returns_bind in Hr as (debug & w1 & Hd & Hr).
  apply returns_config_get in Hd as [-> ->].
  apply returns_bind in Hr as (ni0 & w1 & Hg & Hr).
  apply returns_get_importer in Hg as [-> ->].
  destruct (Bool.eqb debug false); inv_returns; subst; eauto.
Qed.


Lemma optics_pass_returns (p : Pass) w u w' :
  returns (optics_pass config args p) w u w' →
  ∃ minPts d l,
    get_uint config (minPts_key p) = Some minPts ∧ (0 < minPts)%N
    ∧ get_double config (maxClusterDistance_key p) = Some d
    ∧ (0 <? d)%float = true
    ∧ optics_call args minPts d (store_of w) = Some l
    ∧ w' = with_store l w.
Proof.
  unfold optics_pass, optics_call. intros Hr. inv_returns. subst.
  match goal with Hn : (0 <? _)%N = true |- _ => apply N.ltb_lt in Hn end.
  eauto 10.
Qed.

Lemma import_seacable_nodes_returns w u w' :
  returns import_seacable_nodes w u w' →
  ∃ ni3 ni4,
    importSeacableLandingPoints (nodeImport w) = Some ni3
    ∧ importSubmarineCableEdgesWaypoints ni3 = Some ni4
    ∧ w' = with_importer ni4 w.
Proof.
  unfold import_seacable_nodes. intros Hr. inv_returns. subst. eauto.
Qed.

Lemma merge_node_sources_returns w u w' :
  returns (merge_node_sources config args) w u w' →
  ∃ ni1 nN dN l1 nM dM l2 ni3 ni4,
    import_cities_of config args (nodeImport w) = Some ni1
    ∧ get_uint config (minPts_key Neighbour) = Some nN ∧ (0 < nN)%N
    ∧ get_double config (maxClusterDistance_key Neighbour) = Some dN
    ∧ (0 <? dN)%float = true
    ∧ optics_call args nN dN (locations ni1) = Some l1
    ∧ get_uint config (minPts_key Metropolis) = Some nM ∧ (0 < nM)%N
    ∧ get_double config (maxClusterDistance_key Metropolis) = Some dM
    ∧ (0 <? dM)%float = true
    ∧ optics_call args nM dM l1 = Some l2
    ∧ importSeacableLandingPoints {| locations := l2; cables := cables ni1 |}
      = Some ni3
    ∧ importSubmarineCableEdgesWaypoints ni3 = Some ni4
    ∧ w' = with_importer ni4 w.
Proof.
  unfold merge_node_sources, filter_locations_with_optics. intros Hr.
  apply returns_bind in Hr as (? & w1 & (ni1 & Hc & ->)%read_city_positions_returns & Hr).
  apply returns_bind in Hr as (? & w3 & Hf & Hs).
  apply returns_bind in Hf as (? & w2 & HN & HM).
  apply optics_pass_returns in HN as (nN & dN & l1 & ? & ? & ? & ? & HlN & ->).
  apply optics_pass_returns in HM as (nM & dM & l2 & ? & ? & ? & ? & HlM & ->).
  apply import_seacable_nodes_returns in Hs as (ni3 & ni4 & Hl & Hw & ->).
  exists ni1, nN, dN, l1, nM, dM, l2, ni3, ni4. split_and!; done.
Qed.

Lemma create_delaunay_triangulation_returns w g w' :
  returns create_delaunay_triangulation w g w' →
  Delaunay_create (store_of w) = Some g ∧ w' = w.
Proof.
  unfold create_delaunay_triangulation. intros Hr. inv_returns. by subst.
Qed.

Lemma kml_config_returns w kml w' :
  returns (kml_config config) w kml w' → w' = w ∧ kml_config_read config kml.
Proof.
  intros Hr. unfold kml_config in Hr. cbv zeta in *. inv_returns. subst.
  unfold kml_config_read. simpl. split_and!; done.
Qed.

Lemma kml_output_returns s kml g name w u w' :
  returns (kml_output args s kml g name) w u w' →
  files w' = kml_files args name g kml ++ files w ∧ nodeImport w' = nodeImport w.
Proof.
  unfold kml_output, kml_files. destruct (kmlOutputEnabled args); intros Hr;
    inv_returns; by subst.
Qed.

Lemma apply_density_filter_returns g w g' w' :
  returns (apply_density_filter config g) w g' w' →
  w' = w
  ∧ ∃ enable, get_bool config "lengthFilter.enable" = Some enable
      ∧ if Bool.eqb enable true then filterByLength g = Some g' else g' = g.
Proof.
  unfold apply_density_filter. intros Hr.
  apply returns_bind in Hr as (enable & w1 & [He ->]%returns_config_get & Hr).
  destruct (Bool.eqb enable true) eqn:Hb; inv_returns; subst.
  - split; [done|]. exists enable. by rewrite Hb.
  - split; [done|]. exists enable. by rewrite Hb.
Qed.

Lemma import_submarine_cables_returns g w g' w' :
  returns (import_submarine_cables g) w g' w' →
  ∃ ni', importSubmarineCableEdges (nodeImport w) g = Some (ni', g')
         ∧ w' = with_importer ni' w.
Proof.
  unfold import_submarine_cables. intros Hr. inv_returns. subst.
  match goal with Hc : importSubmarineCableEdges _ _ = Some ?r |- _ =>
    destruct r as [ni' g3]; simpl in *; eauto end.
Qed.

Lemma open_ofstream_returns name w b w' :
  returns (open_ofstream name) w b w' →
  b = ofstream_good name
  ∧ w' = if ofstream_good name then with_file name OutEmpty w else w.
Proof.
  unfold open_ofstream. destruct (ofstream_good name); intros Hr;
    inv_returns; by subst.
Qed.

Lemma graph_output_returns g w u w' :
  returns (graph_output config args g) w u w' →
  files w' = graph_files config args g ++ files w
  ∧ nodeImport w' = nodeImport w
  ∧ graph_output_ready config args.
Proof.
  unfold graph_output, graph_files, graph_output_ready.
  destruct (graphOutputEnabled args); intros Hr; [|inv_returns; by subst].
  apply returns_bind in Hr as (n & w1 & [Hn ->]%returns_config_get & Hr).
  apply returns_bind in Hr as (b1 & w1 & [-> ->]%open_ofstream_returns & Hr).
  apply returns_bind in Hr as (? & w2 & [Hg1 ->]%returns_assert & Hr).
  apply returns_bind in Hr as (e & w2 & [He ->]%returns_config_get & Hr).
  apply returns_bind in Hr as (b2 & w2 & [-> ->]%open_ofstream_returns & Hr).
  apply returns_bind in Hr as (? & w3 & [Hg2 ->]%returns_assert & Hr).
  inv_returns. subst. rewrite Hn, He, Hg1, Hg2. split_and!; [done..|].
  intros _. by exists n, e.
Qed.

Lemma add_simulation_nodes_returns nodes topos w topos' w' :
  returns (add_simulation_nodes nodes topos) w topos' w' →
  add_nodes nodes topos = Some topos' ∧ w' = w.
Proof.
  revert topos. induction nodes as [|n nodes IH]; intros topos Hr; simpl in *.
  - inv_returns. by subst.
  - apply returns_bind in Hr as (t1 & w1 & [Ha ->]%returns_call & Hr).
    rewrite Ha. by apply IH.
Qed.

Lemma deal_with_simulation_nodes_returns g w topos w' :
  returns (deal_with_simulation_nodes args g) w topos w' →
  w' = w
  ∧ sim_nodes_ready args
  ∧ ∃ st0, SimulationTopology_new g = Some st0
      ∧ if decide (simNodesJSONFile args = "") then topos = (st0, g)
        else ∃ nodes, Json_parse_nodes (simNodesJSONFile args) = Some nodes
                      ∧ add_nodes nodes (st0, g) = Some topos.
Proof.
  unfold deal_with_simulation_nodes, sim_nodes_ready. intros Hr.
  apply returns_bind in Hr as (st0 & w1 & [Hs ->]%returns_call & Hr).
  destruct (simNodesJSONFile args) as [|c rest] eqn:Hf; simpl in Hr.
  - inv_returns. subst. split_and!; [done..|]. exists st0. split; [done|].
    by rewrite decide_True.
  - destruct (Json_parse_nodes (String c rest)) as [nodes|] eqn:Hp;
      [|by apply returns_abort in Hr].
    apply add_simulation_nodes_returns in Hr as [Ha ->].
    split_and!; [done..|]. exists st0. split; [done|].
    rewrite decide_False by done. eauto.
Qed.

Lemma json_output_returns g w u w' :
  returns (json_output config args g) w u w' →
  files w' = json_files config args g ++ files w
  ∧ nodeImport w' = nodeImport w
  ∧ json_output_ready config args.
Proof.
  unfold json_output, json_files, json_output_ready.
  destruct (jsonOutputEnabled args); intros Hr; [|inv_returns; by subst].
  apply returns_bind in Hr as (name & w1 & [Hn ->]%returns_config_get & Hr).
  apply returns_bind in Hr as (pretty & w1 & [Hp ->]%returns_config_get & Hr).
  inv_returns. subst. simpl. by rewrite Hn, Hp.
Qed.

End StageReturns.

(** ** What a returning run has computed and written *)

Section MainReturns.
Context `{Collaborators}.
Variable config : Config.
Variable args : CMDArgs.

Lemma reset_node_ids_returns w u w' :
  returns reset_node_ids w u w' → w' = with_store (reset_ids (store_of w)) w.
Proof. unfold reset_node_ids. intros Hr. inv_returns. by subst. Qed.

Lemma build_and_output_returns w g st w' :
  returns (build_and_output config args) w (g, st) w' →
  ∃ g0 kml g1 g2 ni' g3 g4 st0,
    Delaunay_create (store_of w) = Some g0
    ∧ kml_config_read config kml
    ∧ filterBetaSkeletonEdges g0 = Some g1
    ∧ (∃ enable, get_bool config "lengthFilter.enable" = Some enable
         ∧ if Bool.eqb enable true then filterByLength g1 = Some g2 else g2 = g1)
    ∧ importSubmarineCableEdges (nodeImport w) g2 = Some (ni', g3)
    ∧ prune g3 = Some g4
    ∧ SimulationTopology_new g4 = Some st0
    ∧ (if decide (simNodesJSONFile args = "") then (st, g) = (st0, g4)
       else ∃ nodes, Json_parse_nodes (simNodesJSONFile args) = Some nodes
                     ∧ add_nodes nodes (st0, g4) = Some (st, g))
    ∧ nodeImport w' = ni'
    ∧ files w'
      = json_files config args g ++ graph_files config args g4
        ++ kml_files args (gabrielFile kml) g4 kml
        ++ kml_files args (delaunayFile kml) g0 kml ++ files w
    ∧ graph_output_ready config args
    ∧ sim_nodes_ready args
    ∧ json_output_ready config args.
Proof.
  unfold build_and_output. intros Hr.
  apply returns_bind in Hr
    as (g0 & w0 & [Hd ->]%create_delaunay_triangulation_returns & Hr).
  apply returns_bind in Hr as (kml & w1 & [-> Hk]%kml_config_returns & Hr).
  apply returns_bind in Hr as (? & w1 & [Hf1 Hn1]%kml_output_returns & Hr).
  apply returns_bind in Hr as (g1 & w2 & Hb & Hr).
  unfold create_beta_skeleton in Hb. apply returns_call in Hb as [Hb ->].
  apply returns_bind in Hr as (g2 & w2 & [-> Hdens]%apply_density_filter_returns & Hr).
  apply returns_bind in Hr
    as (g3 & w2 & (ni' & Hc & ->)%import_submarine_cables_returns & Hr).
  apply returns_bind in Hr as (g4 & w2 & Hp & Hr).
  unfold prune_stage in Hp. apply returns_call in Hp as [Hp ->].
  apply returns_bind in Hr as (? & w2 & [Hf2 Hn2]%kml_output_returns & Hr).
  apply returns_bind in Hr as (? & w3 & (Hf3 & Hn3 & Hgr)%graph_output_returns & Hr).
  apply returns_bind in Hr
    as ([st' g'] & w4 & (-> & Hsr & st0 & Hs & Hsim)%deal_with_simulation_nodes_returns & Hr).
  apply returns_bind in Hr as (? & w4 & (Hf4 & Hn4 & Hjr)%json_output_returns & Hr).
  apply returns_ret in Hr as [[= -> ->] ->]. simpl in *.
  exists g0, kml, g1, g2, ni', g3, g4, st0. rewrite Hn1 in Hc.
  split_and!; try done.
  - by rewrite Hn4, Hn3, Hn2.
  - by rewrite Hf4, Hf3, Hf2, Hf1.
Qed.

(** The whole of a returning run: the merge phase leaves [wm], the
    identifiers are assigned on its store, and the chain of graph stages
    runs from there. *)
Lemma main_returns w g st :
  outcome (main config args w) = Done (g, st) →
  ∃ wm g0 kml g1 g2 ni' g3 g4 st0,
    returns (merge_node_sources config args) w () wm
    ∧ Delaunay_create (reset_ids (store_of wm)) = Some g0
    ∧ kml_config_read config kml
    ∧ filterBetaSkeletonEdges g0 = Some g1
    ∧ (∃ enable, get_bool config "lengthFilter.enable" = Some enable
         ∧ if enable then filterByLength g1 = Some g2 else g2 = g1)
    ∧ importSubmarineCableEdges
        {| locations := reset_ids (store_of wm); cables := cables (nodeImport wm) |}
        g2
      = Some (ni', g3)
    ∧ prune g3 = Some g4
    ∧ SimulationTopology_new g4 = Some st0
    ∧ (if decide (simNodesJSONFile args = "") then (st, g) = (st0, g4)
       else ∃ nodes, Json_parse_nodes (simNodesJSONFile args) = Some nodes
                     ∧ add_nodes nodes (st0, g4) = Some (st, g))
    ∧ nodeImport (final (main config args w)) = ni'
    ∧ files (final (main config args w))
      = json_files config args g ++ graph_files config args g4
        ++ kml_files args (gabrielFile kml) g4 kml
        ++ kml_files args (delaunayFile kml) g0 kml ++ files w
    ∧ preconditions_met config args.
Proof.
  intros Ho.
  assert (returns (main config args) w (g, st) (final (main config args w)))
    as Hr by done.
  unfold main in Hr at 1.
  apply returns_bind in Hr as ([] & wm & Hm & Hr).
  apply returns_bind in Hr as (? & w2 & ->%reset_node_ids_returns & Hr).
  apply build_and_output_returns in Hr
    as (g0 & kml & g1 & g2 & ni' & g3 & g4 & st0 & Hb).
  destruct Hb as (Hd & Hk & Hbeta & (enable & He & Hdens) & Hc & Hp & Hs & Hsim
                  & Hn & Hf & Hgr & Hsr & Hjr).
  apply merge_node_sources_returns in Hm as Hm'.
  destruct Hm' as (ni1 & nN & dN & l1 & nM & dM & l2 & ni3 & ni4 & Hm').
  destruct Hm' as (Hci & HnN & HposN & HdN & HltN & _ & HnM & HposM & HdM & HltM
                   & _ & _ & _ & Hwm).
  exists wm, g0, kml, g1, g2, ni', g3, g4, st0. split_and!; try done.
  - exists enable. split; [done|]. by destruct enable.
  - rewrite Hf. simpl. by rewrite Hwm.
  - unfold preconditions_met. split_and!; try done.
    + unfold import_cities_of in Hci. by destruct (get_bool config "debug.enable").
    + by exists nN, dN.
    + by exists nM, dM.
    + by exists kml.
Qed.

(** X2.  A merge phase that returns has imported the cities with the seed
    of the command line (from the generator, or from the file in debug
    mode), run the neighbour pass on the imported store and the metropolis
    pass on the result of the neighbour pass, each with
    [eps = maxClusterDistance / EARTH_RADIUS_KM], the configured [minPts],
    the threshold [0.8 * eps] and that same seed, and only then imported the
    cable landing points and, after them, the waypoints; no file is
    written. *)
Theorem merge_phase_dataflow w wm :
  returns (merge_node_sources config args) w () wm →
  ∃ ni1 nN dN l1 nM dM l2 ni3 ni4,
    import_cities_of config args (nodeImport w) = Some ni1
    ∧ get_uint config "neighbourCluster.minPts" = Some nN
    ∧ get_double config "neighbourCluster.maxClusterDistance" = Some dN
    ∧ OPTICSFilter_filter (dN / Cxx.EARTH_RADIUS_KM) nN
        (0.8 * (dN / Cxx.EARTH_RADIUS_KM)) (getSeed args) (locations ni1)
      = Some l1
    ∧ get_uint config "metropolisCluster.minPts" = Some nM
    ∧ get_double config "metropolisCluster.maxClusterDistance" = Some dM
    ∧ OPTICSFilter_filter (dM / Cxx.EARTH_RADIUS_KM) nM
        (0.8 * (dM / Cxx.EARTH_RADIUS_KM)) (getSeed args) l1
      = Some l2
    ∧ importSeacableLandingPoints {| locations := l2; cables := cables ni1 |}
      = Some ni3
    ∧ importSubmarineCableEdgesWaypoints ni3 = Some ni4
    ∧ nodeImport wm = ni4
    ∧ files wm = files w.
Proof.
  intros Hr.
  apply merge_node_sources_returns in Hr
    as (ni1 & nN & dN & l1 & nM & dM & l2 & ni3 & ni4 & Hr).
  destruct Hr as (? & ? & _ & ? & _ & ? & ? & _ & ? & _ & ? & ? & ? & ->).
  exists ni1, nN, dN, l1, nM, dM, l2, ni3, ni4. split_and!; done.
Qed.

(** X9.  The graph a run returns is built by one chain: the triangulation of
    the store after identifier assignment, then the beta-skeleton filter,
    then the density filter when [lengthFilter.enable] is true (otherwise the
    same graph), then the cable edges, then the pruner, then the inserted
    simulation nodes; the importer the run leaves is the one the cable-edge
    import returned. *)
Theorem returned_graph_composition w g st :
  outcome (main config args w) = Done (g, st) →
  ∃ wm g0 g1 g2 ni' g3 g4 st0,
    returns (merge_node_sources config args) w () wm
    ∧ Delaunay_create (reset_ids (store_of wm)) = Some g0
    ∧ filterBetaSkeletonEdges g0 = Some g1
    ∧ (∃ enable, get_bool config "lengthFilter.enable" = Some enable
         ∧ if enable then filterByLength g1 = Some g2 else g2 = g1)
    ∧ importSubmarineCableEdges
        {| locations := reset_ids (store_of wm); cables := cables (nodeImport wm) |}
        g2
      = Some (ni', g3)
    ∧ prune g3 = Some g4
    ∧ SimulationTopology_new g4 = Some st0
    ∧ (if decide (simNodesJSONFile args = "") then (st, g) = (st0, g4)
       else ∃ nodes, Json_parse_nodes (simNodesJSONFile args) = Some nodes
                     ∧ add_nodes nodes (st0, g4) = Some (st, g))
    ∧ nodeImport (final (main config args w)) = ni'.
Proof.
  intros (wm & g0 & kml & g1 & g2 & ni' & g3 & g4 & st0 & Hm)%main_returns.
  exists wm, g0, g1, g2, ni', g3, g4, st0. split_and!; apply Hm.
Qed.

(** X10.  A run that returns has written, on top of the files that were
    there and in this order: the Delaunay KML file holding the triangulation
    as it was before any filter ran; the Gabriel KML file holding the pruned
    graph (both only with KML output enabled, both with the colours of the
    KML configuration); the node and edge files, first emptied, then written
    from that same pruned graph (only with graph output enabled); the JSON
    file holding the returned graph (only with JSON output enabled). *)
Theorem returned_files w g st :
  outcome (main config args w) = Done (g, st) →
  ∃ wm g0 g3 g4 kml,
    returns (merge_node_sources config args) w () wm
    ∧ Delaunay_create (reset_ids (store_of wm)) = Some g0
    ∧ prune g3 = Some g4
    ∧ kml_config_read config kml
    ∧ (simNodesJSONFile args = "" → g = g4)
    ∧ files (final (main config args w))
      = json_files config args g ++ graph_files config args g4
        ++ kml_files args (gabrielFile kml) g4 kml
        ++ kml_files args (delaunayFile kml) g0 kml ++ files w.
Proof.
  intros (wm & g0 & kml & g1 & g2 & ni' & g3 & g4 & st0 & Hm)%main_returns.
  destruct Hm as (Hm & Hd & Hk & _ & _ & _ & Hp & _ & Hsim & _ & Hf & _).
  exists wm, g0, g3, g4, kml. split_and!; try done.
  intros Hfile. rewrite decide_True in Hsim by done. by injection Hsim.
Qed.

End MainReturns.

(** ** Runs that stop early *)

Section EarlyStops.
Context `{Collaborators}.
Variable config : Config.
Variable args : CMDArgs.


Lemma stops_config_get {A} (n : nat) (get : Config → string → option A) c key :
  get c key = None → stops_before n (config_get get c key).
Proof. intros Hg w. rewrite config_get_run, Hg. by split. Qed.

Lemma stays_config_get {A} (n : nat) (get : Config → string → option A) c key :
  stays_before n (config_get get c key).
Proof. intros w. rewrite config_get_run. destruct (get c key); constructor. Qed.

Lemma merge_node_sources_stays (n : nat) :
  5 ≤ n → stays_before n (merge_node_sources config args).
Proof.
  intros Hn. eapply emits_stays_before; [apply merge_node_sources_emits|].
  unfold sched_merge, sched_cities.
  destruct (Bool.eqb _ _); repeat constructor; simpl; lia.
Qed.

Lemma reset_node_ids_stays (n : nat) : 6 ≤ n → stays_before n reset_node_ids.
Proof.
  intros Hn. eapply emits_stays_before; [apply reset_node_ids_emits|].
  repeat constructor; simpl; lia.
Qed.

Lemma create_delaunay_triangulation_stays (n : nat) :
  7 ≤ n → stays_before n create_delaunay_triangulation.
Proof.
  intros Hn. eapply emits_stays_before; [apply create_delaunay_triangulation_emits|].
  repeat constructor; simpl; lia.
Qed.

Lemma kml_config_stays (n : nat) : stays_before n (kml_config config).
Proof. eapply emits_stays_before; [apply kml_config_emits | constructor]. Qed.

Lemma kml_output_stays (n : nat) s kml g name :
  15 ≤ n → stays_before n (kml_output args s kml g name).
Proof.
  intros Hn. eapply emits_stays_before; [apply kml_output_emits|].
  unfold sched_kml. destruct (kmlOutputEnabled args), s;
    repeat constructor; simpl; lia.
Qed.

Lemma create_beta_skeleton_stays (n : nat) g :
  9 ≤ n → stays_before n (create_beta_skeleton g).
Proof.
  intros Hn. eapply emits_stays_before; [apply create_beta_skeleton_emits|].
  repeat constructor; simpl; lia.
Qed.

Lemma apply_density_filter_stays (n : nat) g :
  10 ≤ n → stays_before n (apply_density_filter config g).
Proof.
  intros Hn. eapply emits_stays_before; [apply apply_density_filter_emits|].
  unfold sched_density. destruct (Bool.eqb _ _); repeat constructor; simpl; lia.
Qed.

Lemma import_submarine_cables_stays (n : nat) g :
  13 ≤ n → stays_before n (import_submarine_cables g).
Proof.
  intros Hn. eapply emits_stays_before; [apply import_submarine_cables_emits|].
  repeat constructor; simpl; lia.
Qed.

Lemma prune_stage_stays (n : nat) g : 14 ≤ n → stays_before n (prune_stage g).
Proof.
  intros Hn. eapply emits_stays_before; [apply prune_stage_emits|].
  repeat constructor; simpl; lia.
Qed.

Lemma graph_output_stays (n : nat) g :
  16 ≤ n → stays_before n (graph_output config args g).
Proof.
  intros Hn. eapply emits_stays_before; [apply graph_output_emits|].
  unfold sched_graph_output. destruct (graphOutputEnabled args);
    repeat constructor; simpl; lia.
Qed.

Lemma deal_with_simulation_nodes_stays (n : nat) g :
  18 ≤ n → stays_before n (deal_with_simulation_nodes args g).
Proof.
  intros Hn. eapply emits_stays_before; [apply deal_with_simulation_nodes_emits|].
  unfold sched_sim. constructor; [simpl; lia|].
  destruct (0 <? _)%nat; [|constructor].
  apply Forall_fmap, Forall_true. intros node. simpl. lia.
Qed.

(** Whatever stops every run from line 116 on, before position [n], stops
    every run of [main]. *)
Lemma main_stops_in_build (n : nat) :
  6 ≤ n → stops_before n (build_and_output config args) →
  stops_before n (main config args).
Proof.
  intros Hn Hb. unfold main.
  apply stops_bind_r; [apply merge_node_sources_stays; lia | intros _].
  apply stops_bind_r; [apply reset_node_ids_stays; lia | intros _]. done.
Qed.

(** Whatever stops the stages that follow the pruner stops [main]. *)
Lemma main_stops_after_prune (n : nat)
    (rest : KmlConfig → BaseTopology → M (BaseTopology * SimulationTopology)) :
  15 ≤ n →
  (∀ kml g, stops_before n (rest kml g)) →
  stops_before n
    (delGen ← create_delaunay_triangulation;
     kml ← kml_config config;
     kml_output args KmlDelaunay kml delGen (delaunayFile kml);;
     baseTopo ← create_beta_skeleton delGen;
     baseTopo ← apply_density_filter config baseTopo;
     baseTopo ← import_submarine_cables baseTopo;
     baseTopo ← prune_stage baseTopo;
     rest kml baseTopo).
Proof.
  intros Hn Hrest.
  apply stops_bind_r; [apply create_delaunay_triangulation_stays; lia | intros g0].
  apply stops_bind_r; [apply kml_config_stays | intros kml].
  apply stops_bind_r; [apply kml_output_stays; lia | intros _].
  apply stops_bind_r; [apply create_beta_skeleton_stays; lia | intros g1].
  apply stops_bind_r; [apply apply_density_filter_stays; lia | intros g2].
  apply stops_bind_r; [apply import_submarine_cables_stays; lia | intros g3].
  apply stops_bind_r; [apply prune_stage_stays; lia | intros g4].
  apply Hrest.
Qed.

Lemma is_abort_not_done {A} (o : Outcome A) :
  is_abort o = true → is_done o = true → False.
Proof. by destruct o. Qed.

(** *** Clustering parameters *)

Lemma valid_clustering_config_dec (p : Pass) :
  valid_clustering_config config p ∨ ¬ valid_clustering_config config p.
Proof.
  unfold valid_clustering_config.
  destruct (get_uint config (minPts_key p)) as [minPts|] eqn:Hn;
    [|right; intros (? & ? & ? & _); done].
  destruct (get_double config (maxClusterDistance_key p)) as [d|] eqn:Hd;
    [|right; intros (? & ? & _ & _ & ? & _); done].
  destruct (decide (0 < minPts)%N) as [Hpos|Hpos];
    [|right; intros (? & ? & [= <-] & ? & _); done].
  destruct (0 <? d)%float eqn:Hlt.
  - left. by exists minPts, d.
  - right. intros (? & ? & _ & _ & [= <-] & ?). congruence.
Qed.

Lemma optics_pass_invalid (p : Pass) (w : World) :
  ¬ valid_clustering_config config p →
  ∃ f, optics_pass config args p w =
         {| outcome := Abort f; final := w; trace := [] |}.
Proof.
  intros Hbad. unfold optics_pass. rewrite run_bind, config_get_run.
  destruct (get_uint config (minPts_key p)) as [minPts|] eqn:Hn; simpl; [|eauto].
  rewrite run_bind, cxx_assert_run.
  destruct (0 <? minPts)%N eqn:Hpos; simpl; [|eauto].
  rewrite run_bind, config_get_run.
  destruct (get_double config (maxClusterDistance_key p)) as [d|] eqn:Hd; simpl;
    [|eauto].
  rewrite run_bind, cxx_assert_run.
  destruct (0 <? d)%float eqn:Hlt; simpl; [|eauto].
  destruct Hbad. exists minPts, d. by apply N.ltb_lt in Hpos.
Qed.

Lemma main_stops_invalid_clustering (p : Pass) :
  ¬ valid_clustering_config config p →
  stops_before (rank (EvOptics p)) (main config args).
Proof.
  intros Hbad.
  assert (stops_before (rank (EvOptics p)) (optics_pass config args p)) as Hp.
  { intros w. destruct (optics_pass_invalid p w Hbad) as [f ->]. by split. }
  unfold main. apply stops_bind_l. unfold merge_node_sources.
  apply stops_bind_r.
  - apply (emits_stays_before _ (sched_cities config));
      [apply read_city_positions_emits|].
    unfold sched_cities. destruct (Bool.eqb _ _); destruct p; repeat constructor.
  - intros _. apply stops_bind_l. unfold filter_locations_with_optics. destruct p.
    + by apply stops_bind_l.
    + apply stops_bind_r; [|done].
      apply (emits_stays_before _ [EvOptics Neighbour]); [apply optics_pass_emits|].
      repeat constructor.
Qed.

(** X3.  The clustering filter of a pass is only ever called when the
    configuration gives that pass a [minPts] of at least one and a radius
    that compares above zero (so neither missing, nor of another type, nor
    zero, negative or NaN); a run that returns has found both passes so
    configured. *)
Theorem optics_called_only_with_valid_config (p : Pass) (w : World) :
  EvOptics p ∈ trace (main config args w)
  ∨ is_done (outcome (main config args w)) = true →
  valid_clustering_config config p.
Proof.
  intros Hrun. destruct (valid_clustering_config_dec p) as [Hv|Hbad]; [done|].
  destruct (main_stops_invalid_clustering p Hbad w) as [Ha Ht].
  destruct Hrun as [He|Hd].
  - rewrite Forall_forall in Ht. apply Ht in He. lia.
  - destruct (is_abort_not_done _ Ha Hd).
Qed.

(** *** The KML configuration *)

Lemma kml_config_incomplete_stops (n : nat) :
  kml_config_incomplete config → stops_before n (kml_config config).
Proof.
  intros Hinc w. split; [|apply kml_config_stays].
  destruct (outcome (kml_config config w)) as [kml|f] eqn:Ho; [|done].
  assert (returns (kml_config config) w kml (final (kml_config config w)))
    as [_ Hk]%kml_config_returns by done.
  destruct Hk as (? & ? & ? & ? & ? & ? & ? & ? & ? & ?).
  destruct Hinc as [(key & Hkey & Hnone)|(key & Hkey & Hnone)];
    unfold kml_string_keys, kml_double_keys in Hkey;
    rewrite !elem_of_cons, elem_of_nil in Hkey;
    destruct_or!; try done; subst key; congruence.
Qed.

(** X8.  The ten entries of the KML configuration are read whether or not
    KML output is enabled: when one of them is missing or of the wrong type,
    every run aborts right after the triangulation, before the
    beta-skeleton filter and before any KML file is written. *)
Theorem kml_config_incomplete_aborts (w : World) :
  kml_config_incomplete config →
  let r := main config args w in
  is_abort (outcome r) = true
  ∧ (EvBetaSkeleton ∉ trace r)
  ∧ (∀ s, EvKml s ∉ trace r)
  ∧ ∀ e, e ∈ trace r → rank e ≤ 6.
Proof.
  intros Hinc r.
  assert (stops_before 7 (main config args)) as Hstop.
  { apply main_stops_in_build; [lia|]. unfold build_and_output.
    apply stops_bind_r; [by apply create_delaunay_triangulation_stays | intros g0].
    by apply stops_bind_l, kml_config_incomplete_stops. }
  destruct (Hstop w) as [Ha Ht]. rewrite Forall_forall in Ht.
  split_and!; [done| | |].
  - intros He. apply Ht in He. simpl in He. lia.
  - intros s He. apply Ht in He. destruct s; simpl in He; lia.
  - intros e He. apply Ht in He. lia.
Qed.

(** *** The simulation-node file *)



(** *** The name of the JSON file *)

(** X15.  With JSON output enabled, the entry [json_graph_output.filename]
    is read before the name of the command line is looked at: when it is
    missing, every run aborts without writing the JSON file, even when the
    command line names the file. *)
Theorem json_filename_required (w : World) :
  jsonOutputEnabled args = true →
  get_string (subConfig config "json_graph_output") "filename" = None →
  let r := main config args w in
  is_abort (outcome r) = true ∧ ∀ pretty name, EvJsonWrite pretty name ∉ trace r.
Proof.
  intros Hen Hname r.
  assert (stops_before 18 (main config args)) as Hstop.
  { apply main_stops_in_build; [lia|]. unfold build_and_output.
    apply (main_stops_after_prune 18); [lia | intros kml g4].
    apply stops_bind_r; [apply kml_output_stays; lia | intros _].
    apply stops_bind_r; [apply graph_output_stays; lia | intros _].
    apply stops_bind_r; [by apply deal_with_simulation_nodes_stays | intros topos].
    apply stops_bind_l. unfold json_output. rewrite Hen.
    by apply stops_bind_l, stops_config_get. }
  destruct (Hstop w) as [Ha Ht]. rewrite Forall_forall in Ht.
  split; [done|].
  intros pretty name He. apply Ht in He. simpl in He. lia.
Qed.

End EarlyStops.

(** ** The sequence of calls, and the inserted simulation nodes *)

Section CallSequence.
Context `{Collaborators}.
Variable config : Config.
Variable args : CMDArgs.

Lemma inserted_nodes_fmap (nodes : list SimulationNode) :
  inserted_nodes (EvSimAddNode <$> nodes) = nodes.
Proof. induction nodes as [|n nodes IH]; csimpl; [done | by rewrite IH]. Qed.

Lemma inserted_nodes_prefix (t1 t2 : list Event) :
  t1 `prefix_of` t2 → inserted_nodes t1 `prefix_of` inserted_nodes t2.
Proof.
  intros [k ->]. unfold inserted_nodes. rewrite omap_app. by eexists.
Qed.

Lemma inserted_nodes_schedule :
  inserted_nodes (schedule config args)
  = if (0 <? String.length (simNodesJSONFile args))%nat
    then default [] (Json_parse_nodes (simNodesJSONFile args))
    else [].
Proof.
  unfold schedule, sched_merge, sched_cities, sched_kml, sched_density,
    sched_cables, sched_graph_output, sched_json, sched_sim.
  unfold inserted_nodes. rewrite !omap_app.
  replace (omap _ (if jsonOutputEnabled args then _ else _)) with (@nil SimulationNode);
    [|destruct (jsonOutputEnabled args); [|done]; cbv zeta;
      destruct (get_string _ _); [|done]; by destruct (get_bool _ _)].
  destruct (Bool.eqb (flag config "debug.enable") false),
    (kmlOutputEnabled args), (Bool.eqb (flag config "lengthFilter.enable") true),
    (graphOutputEnabled args); simpl; rewrite app_nil_r;
    (destruct (0 <? _)%nat; [apply inserted_nodes_fmap | done]).
Qed.


(** X13.  The simulation nodes are inserted in the order of the file,
    without skipping any: in every run the inserted records are an initial
    part of the parsed records, in a run that returns they are all of them,
    and without a file name none is inserted. *)
Theorem sim_nodes_inserted_in_file_order (w : World) :
  let r := main config args w in
  (simNodesJSONFile args = "" → inserted_nodes (trace r) = [])
  ∧ (∀ nodes, Json_parse_nodes (simNodesJSONFile args) = Some nodes →
       inserted_nodes (trace r) `prefix_of` nodes)
  ∧ (is_done (outcome r) = true → simNodesJSONFile args ≠ "" →
     ∃ nodes, Json_parse_nodes (simNodesJSONFile args) = Some nodes
              ∧ inserted_nodes (trace r) = nodes).
Proof.
  intros r.
  assert (inserted_nodes (trace r) `prefix_of` inserted_nodes (schedule config args))
    as Hpre by apply inserted_nodes_prefix, main_emits.
  rewrite inserted_nodes_schedule in Hpre.
  split_and!.
  - intros Hfile. rewrite Hfile in Hpre. simpl in Hpre. by apply prefix_nil_inv.
  - intros nodes Hparse. rewrite Hparse in Hpre.
    destruct (0 <? _)%nat; [done|].
    apply prefix_nil_inv in Hpre. rewrite Hpre. apply prefix_nil.
  - intros Hd Hfile.
    pose proof (proj2 (main_emits config args w) Hd) as Ht.
    destruct (outcome r) as [[g st]|f] eqn:Ho; [|done].
    apply main_returns in Ho as (wm & g0 & kml & g1 & g2 & ni' & g3 & g4 & st0 & Hm).
    destruct Hm as (_ & _ & _ & _ & _ & _ & _ & _ & Hsim & _).
    rewrite decide_False in Hsim by done. destruct Hsim as (nodes & Hparse & _).
    exists nodes. split; [done|].
    unfold r. rewrite Ht, inserted_nodes_schedule, Hparse.
    by destruct (simNodesJSONFile args).
Qed.

End CallSequence.

(** ** Files *)

Section Files.
Context `{Collaborators}.
Variable config : Config.
Variable args : CMDArgs.

Lemma keeps_bind {A B} (m : M A) (k : A → M B) :
  keeps_files m → (∀ a, keeps_files (k a)) → keeps_files (m ≫= k).
Proof.
  intros Hm Hk w. rewrite run_bind. destruct (outcome (m w)); simpl.
  - by rewrite Hk.
  - apply Hm.
Qed.

Lemma keeps_ret {A} (a : A) : keeps_files (mret a : M A).
Proof. done. Qed.

Lemma keeps_abort {A} (f : Failure) : keeps_files (abort f : M A).
Proof. done. Qed.

Lemma keeps_emit (e : Event) : keeps_files (emit e).
Proof. done. Qed.

Lemma keeps_assert (c : bool) (t : string) : keeps_files (cxx_assert c t).
Proof. by destruct c. Qed.

Lemma keeps_config_get {A} (get : Config → string → option A) c key :
  keeps_files (config_get get c key).
Proof. intros w. rewrite config_get_run. by destruct (get c key). Qed.

Lemma keeps_call {A} (e : Event) (r : option A) : keeps_files (call e r).
Proof. by destruct r. Qed.

Lemma keeps_get_importer : keeps_files get_importer.
Proof. done. Qed.

Lemma keeps_set_importer ni : keeps_files (set_importer ni).
Proof. done. Qed.

Lemma keeps_get_locations : keeps_files get_locations.
Proof. done. Qed.

Lemma keeps_set_locations l : keeps_files (set_locations l).
Proof. done. Qed.

Ltac keeps :=
  repeat first
    [ apply keeps_ret | apply keeps_abort | apply keeps_emit | apply keeps_assert
    | apply keeps_config_get | apply keeps_call | apply keeps_get_importer
    | apply keeps_set_importer | apply keeps_get_locations
    | apply keeps_set_locations
    | apply keeps_bind; [|intros ?] ].

Lemma merge_node_sources_keeps : keeps_files (merge_node_sources config args).
Proof.
  unfold merge_node_sources, read_city_positions, filter_locations_with_optics,
    optics_pass, import_seacable_nodes.
  keeps. destruct (Bool.eqb _ _); keeps.
Qed.

Lemma add_simulation_nodes_keeps nodes topos :
  keeps_files (add_simulation_nodes nodes topos).
Proof.
  revert topos. induction nodes as [|n nodes IH]; intros topos; simpl; keeps.
  apply IH.
Qed.

(** X11.  With KML, graph and JSON output all disabled, no run of [main]
    writes a file, whether it returns or aborts. *)
Theorem no_output_enabled_no_file_written (w : World) :
  kmlOutputEnabled args = false →
  graphOutputEnabled args = false →
  jsonOutputEnabled args = false →
  files (final (main config args w)) = files w.
Proof.
  intros Hkml Hgraph Hjson. revert w.
  change (keeps_files (main config args)).
  unfold main. apply keeps_bind; [apply merge_node_sources_keeps | intros _].
  unfold reset_node_ids, build_and_output, create_delaunay_triangulation,
    kml_config, kml_output, create_beta_skeleton, apply_density_filter,
    import_submarine_cables, prune_stage, graph_output,
    deal_with_simulation_nodes, json_output.
  rewrite Hkml, Hgraph, Hjson. cbv zeta. keeps.
  - destruct (Bool.eqb _ _); keeps.
  - destruct (0 <? _)%nat; keeps.
    destruct (Json_parse_nodes _); [apply add_simulation_nodes_keeps | keeps].
Qed.

(** X12.  Graph output opens the node file before it reads the name of the
    edge file, and writes nothing before both streams are good: when the
    node file cannot be opened the stage aborts on [nodeFile.good()] and
    leaves the files as they were; when the node file opens and the edge file
    cannot be opened, it aborts on [edgeFile.good()] and leaves the node file
    emptied; in both cases the graph writer is not called. *)
Theorem graph_output_open_failure (g : BaseTopology) (w : World)
    (nodeFileName : string) :
  graphOutputEnabled args = true →
  get_string (subConfig config "simple_graph_output") "nodeFile"
    = Some nodeFileName →
  let r := graph_output config args g w in
  (ofstream_good nodeFileName = false →
     r = {| outcome := Abort (AssertionFailed "nodeFile.good()");
            final := w; trace := [] |})
  ∧ (∀ edgeFileName,
       ofstream_good nodeFileName = true →
       get_string (subConfig config "simple_graph_output") "edgeFile"
         = Some edgeFileName →
       ofstream_good edgeFileName = false →
       r = {| outcome := Abort (AssertionFailed "edgeFile.good()");
              final := with_file nodeFileName OutEmpty w; trace := [] |}).
Proof.
  intros Hen Hn r. unfold r, graph_output, open_ofstream. rewrite Hen. cbv zeta.
  rewrite run_bind, config_get_run, Hn. cbn [outcome final trace]. split.
  - intros Hbad. rewrite Hbad. reflexivity.
  - intros edgeFileName Hgood He Hbad. rewrite Hgood.
    unfold mbind, M_bind, bind. cbn [outcome final trace write_file mret M_ret ret cxx_assert].
    rewrite config_get_run, He. cbn [outcome final trace].
    rewrite Hbad. reflexivity.
Qed.

End Files.

(** ** The identifier loop on any store *)

Section IdLoopFrame.
Context `{Domain}.

Lemma setId_setId (i j : Z) (n : GeographicNode) : setId i (setId j n) = setId i n.
Proof. done. Qed.

Lemma setId_data (i : Z) (n1 n2 : GeographicNode) :
  node_data n1 = node_data n2 → setId i n1 = setId i n2.
Proof. unfold setId. by intros ->. Qed.

(** The heap the loop leaves depends on the identifiers it found only
    outside the nodes it visits. *)
Lemma setId_loop_forgets (nodes : list positive) (nodeId : Z)
    (h1 h2 : gmap positive GeographicNode) :
  (∀ p, node_data <$> h1 !! p = node_data <$> h2 !! p) →
  (∀ p, p ∉ nodes → h1 !! p = h2 !! p) →
  (setId_loop nodes nodeId h1).1 = (setId_loop nodes nodeId h2).1.
Proof.
  revert nodeId h1 h2.
  induction nodes as [|q nodes IH]; intros nodeId h1 h2 Hdata Hout; simpl.
  - apply map_eq. intros p. apply Hout, not_elem_of_nil.
  - apply IH.
    + intros p. destruct (decide (q = p)) as [->|Hne].
      * rewrite !lookup_alter_eq. specialize (Hdata p).
        destruct (h1 !! p), (h2 !! p); simpl in *; done.
      * by rewrite !lookup_alter_ne.
    + intros p Hp. destruct (decide (q = p)) as [->|Hne].
      * rewrite !lookup_alter_eq. specialize (Hdata p).
        destruct (h1 !! p) as [n1|], (h2 !! p) as [n2|]; simpl in *; try done.
        f_equal. apply setId_data. congruence.
      * rewrite !lookup_alter_ne by done. apply Hout.
        by apply not_elem_of_cons.
Qed.

(** The node stored last at position [i] leaves the loop with the counter
    value of that position. *)
Lemma setId_loop_last (nodes : list positive) (nodeId : Z)
    (h : gmap positive GeographicNode) (i : nat) (p : positive) :
  nodes !! i = Some p →
  p ∉ drop (S i) nodes →
  (0 ≤ nodeId)%Z →
  (nodeId + Z.of_nat (length nodes) ≤ Cxx.INT_MAX)%Z →
  (setId_loop nodes nodeId h).1 !! p = setId (nodeId + Z.of_nat i) <$> h !! p.
Proof.
  revert nodeId h i.
  induction nodes as [|q nodes IH]; intros nodeId h i Hi Hlast H0 Hmax; [done|].
  cbn [length] in Hmax. cbn [setId_loop]. rewrite int_incr_in_range by lia.
  destruct i as [|i]; simpl in Hi, Hlast.
  - injection Hi as ->. rewrite drop_0 in Hlast.
    rewrite setId_loop_frame by done. rewrite lookup_alter_eq.
    by replace (nodeId + Z.of_nat 0)%Z with nodeId by lia.
  - rewrite (IH _ _ i) by (done || lia).
    replace (nodeId + 1 + Z.of_nat i)%Z with (nodeId + Z.of_nat (S i))%Z by lia.
    destruct (decide (q = p)) as [->|Hne].
    + rewrite lookup_alter_eq. by destruct (h !! p).
    + by rewrite lookup_alter_ne.
Qed.

(** X4.  The loop leaves the container as it was and changes nothing but
    identifiers: the same pointers in the same order, every node with the
    data it had, and the objects that the container does not hold
    untouched.  This needs no assumption on the store. *)
Theorem reset_ids_changes_only_ids (l : Locations) :
  order (reset_ids l) = order l
  ∧ (∀ p, node_data <$> heap (reset_ids l) !! p = node_data <$> heap l !! p)
  ∧ (∀ p, p ∉ order l → heap (reset_ids l) !! p = heap l !! p).
Proof.
  split_and!; [done | |].
  - intros p. apply setId_loop_data.
  - intros p Hp. by apply setId_loop_frame.
Qed.

(** X5.  The identifiers the loop assigns do not depend on the identifiers
    the nodes had: two stores that hold the same pointers in the same order
    and agree on the data of every node, and on the objects outside the
    container, leave the loop equal. *)
Theorem reset_ids_forgets_old_ids (l1 l2 : Locations) :
  order l1 = order l2 →
  (∀ p, node_data <$> heap l1 !! p = node_data <$> heap l2 !! p) →
  (∀ p, p ∉ order l1 → heap l1 !! p = heap l2 !! p) →
  reset_ids l1 = reset_ids l2.
Proof.
  intros Ho Hdata Hout. unfold reset_ids. rewrite <- Ho. f_equal.
  by apply setId_loop_forgets.
Qed.

(** X6.  Running the loop a second time changes nothing. *)
Theorem reset_ids_idempotent (l : Locations) :
  reset_ids (reset_ids l) = reset_ids l.
Proof.
  unfold reset_ids at 1 3. cbn [order heap reset_ids]. f_equal.
  apply setId_loop_forgets.
  - intros p. apply setId_loop_data.
  - intros p Hp. by apply setId_loop_frame.
Qed.

(** X7.  A node leaves the loop with the index of its last position in
    the container (within the range of [int]): when a pointer is stored more
    than once, the identifiers written at its earlier positions are
    overwritten. *)
Theorem reset_ids_last_position (l : Locations) (i : nat) (p : positive) :
  order l !! i = Some p →
  p ∉ drop (S i) (order l) →
  (Z.of_nat (length (order l)) ≤ Cxx.INT_MAX)%Z →
  heap (reset_ids l) !! p = setId (Z.of_nat i) <$> heap l !! p.
Proof.
  intros Hi Hlast Hmax. unfold reset_ids. cbn [heap].
  by rewrite (setId_loop_last _ _ _ i) by (done || lia).
Qed.

End IdLoopFrame.

(** ** How a run can fail *)

Section Failures.
Context `{Collaborators}.
Variable config : Config.
Variable args : CMDArgs.

Lemma aborts_bind {A B} ok (m : M A) (k : A → M B) :
  aborts_with ok m →
  (∀ w a, outcome (m w) = Done a → aborts_with ok (k a)) →
  aborts_with ok (m ≫= k).
Proof.
  intros Hm Hk w f. rewrite run_bind.
  destruct (outcome (m w)) as [a|f'] eqn:Ho; simpl.
  - intros Hf. destruct (Hk w a Ho (final (m w)) f Hf) as [Hok Hlast].
    split; [done|]. intros e He. by rewrite last_app, (Hlast e He).
  - intros [= ->]. by apply Hm.
Qed.

Lemma aborts_never {A} ok (m : M A) :
  (∀ w, is_done (outcome (m w)) = true) → aborts_with ok m.
Proof. intros Hm w f Hf. specialize (Hm w). by rewrite Hf in Hm. Qed.

Lemma aborts_ret {A} ok (a : A) : aborts_with ok (mret a : M A).
Proof. by apply aborts_never. Qed.

Lemma aborts_emit ok (e : Event) : aborts_with ok (emit e).
Proof. by apply aborts_never. Qed.

Lemma aborts_get_importer ok : aborts_with ok get_importer.
Proof. by apply aborts_never. Qed.

Lemma aborts_set_importer ok ni : aborts_with ok (set_importer ni).
Proof. by apply aborts_never. Qed.

Lemma aborts_get_locations ok : aborts_with ok get_locations.
Proof. by apply aborts_never. Qed.

Lemma aborts_set_locations ok l : aborts_with ok (set_locations l).
Proof. by apply aborts_never. Qed.

Lemma aborts_write_file ok name content : aborts_with ok (write_file name content).
Proof. by apply aborts_never. Qed.

Lemma aborts_call {A} (ok : Failure → Prop) (e : Event) (r : option A) :
  ok (CollaboratorFailed e) → aborts_with ok (call e r).
Proof.
  intros Hok w f. destruct r; simpl; [done|]. intros [= <-].
  split; [done|]. by intros e' [= <-].
Qed.

Lemma aborts_config_get {A} (ok : Failure → Prop)
    (get : Config → string → option A) c key :
  (get c key = None → ok (ConfigError (cfg_path c +:+ key))) →
  aborts_with ok (config_get get c key).
Proof.
  intros Hok w f. rewrite config_get_run. destruct (get c key); simpl; [done|].
  intros [= <-]. split; [by apply Hok | done].
Qed.

Lemma aborts_assert (ok : Failure → Prop) (c : bool) (t : string) :
  (c = false → ok (AssertionFailed t)) → aborts_with ok (cxx_assert c t).
Proof.
  intros Hok w f. destruct c; simpl; [done|].
  intros [= <-]. split; [by apply Hok | done].
Qed.

Lemma expected_call (e : Event) : expected_failure config args (CollaboratorFailed e).
Proof. intros _. by exists e. Qed.

Lemma preconditions_valid (p : Pass) :
  preconditions_met config args → valid_clustering_config config p.
Proof. intros (_ & HN & HM & _). by destruct p. Qed.

Ltac aborts :=
  repeat first
    [ apply aborts_ret | apply aborts_emit | apply aborts_get_importer
    | apply aborts_set_importer | apply aborts_get_locations
    | apply aborts_set_locations | apply aborts_write_file
    | apply aborts_call; [apply expected_call]
    | apply aborts_bind; [|intros ? ? ?] ].

Lemma read_city_positions_aborts :
  aborts_with (expected_failure config args) (read_city_positions config args).
Proof.
  unfold read_city_positions. aborts.
  - apply aborts_config_get. intros Hn (Hd & _). rewrite Hn in Hd. by destruct Hd.
  - destruct (Bool.eqb _ _); aborts.
Qed.

Lemma optics_pass_aborts (p : Pass) :
  aborts_with (expected_failure config args) (optics_pass config args p).
Proof.
  unfold optics_pass.
  apply aborts_bind; [|intros w minPts Hn%config_get_done].
  { apply aborts_config_get.
    intros Hn Hpre. destruct (preconditions_valid p Hpre) as (? & ? & Hn' & _). congruence. }
  apply aborts_bind; [|intros _ _ _].
  { apply aborts_assert.
    intros Hpos Hpre. destruct (preconditions_valid p Hpre) as (? & ? & Hn' & Hpos' & _).
    rewrite Hn in Hn'. injection Hn' as <-. apply N.ltb_ge in Hpos. lia. }
  apply aborts_bind; [|intros w' d Hd%config_get_done].
  { apply aborts_config_get.
    intros Hd Hpre. destruct (preconditions_valid p Hpre) as (? & ? & _ & _ & Hd' & _). congruence. }
  apply aborts_bind; [|intros _ _ _].
  { apply aborts_assert.
    intros Hlt Hpre. destruct (preconditions_valid p Hpre) as (? & ? & _ & _ & Hd' & Hlt').
    rewrite Hd in Hd'. injection Hd' as <-. congruence. }
  cbv zeta. aborts.
Qed.

Lemma merge_node_sources_aborts :
  aborts_with (expected_failure config args) (merge_node_sources config args).
Proof.
  unfold merge_node_sources, filter_locations_with_optics, import_seacable_nodes.
  apply aborts_bind; [apply read_city_positions_aborts | intros _ _ _].
  apply aborts_bind; [|intros _ _ _; aborts].
  apply aborts_bind; [|intros _ _ _]; apply optics_pass_aborts.
Qed.

Lemma kml_config_aborts :
  aborts_with (expected_failure config args) (kml_config config).
Proof.
  intros w f Hf. split; [|intros e ->].
  - intros (_ & _ & _ & (kml & Hk) & _).
    destruct Hk as (? & ? & ? & ? & ? & ? & ? & ? & ? & ?).
    exfalso. revert Hf. unfold kml_config. cbv zeta.
    repeat (rewrite run_bind, config_get_run;
            match goal with Hg : ?g = Some _ |- context [?g] => rewrite Hg end;
            cbn [outcome final trace]).
    done.
  - exfalso. revert Hf. unfold kml_config. cbv zeta.
    repeat (rewrite run_bind, config_get_run;
            match goal with |- context [match ?g with Some _ => _ | None => _ end] =>
              destruct g end;
            cbn [outcome final trace]; [|done]).
    done.
Qed.

Lemma graph_output_aborts g :
  aborts_with (expected_failure config args) (graph_output config args g).
Proof.
  unfold graph_output. destruct (graphOutputEnabled args) eqn:Hen; [|aborts].
  cbv zeta.
  apply aborts_bind; [|intros w n Hn%config_get_done].
  { apply aborts_config_get.
    intros Hn (_ & _ & _ & _ & _ & Hg & _).
    destruct (Hg Hen) as (? & ? & Hn' & _). congruence. }
  apply aborts_bind; [|intros w1 b1 Hb1].
  { unfold open_ofstream. destruct (ofstream_good n); aborts. }
  assert (b1 = ofstream_good n) as ->.
  { revert Hb1. unfold open_ofstream. destruct (ofstream_good n); simpl; congruence. }
  apply aborts_bind; [|intros _ _ _].
  { apply aborts_assert.
    intros Hbad (_ & _ & _ & _ & _ & Hg & _).
    destruct (Hg Hen) as (? & ? & Hn' & Hgood & _). congruence. }
  apply aborts_bind; [|intros w2 e He%config_get_done].
  { apply aborts_config_get.
    intros He (_ & _ & _ & _ & _ & Hg & _).
    destruct (Hg Hen) as (? & ? & _ & _ & He' & _). congruence. }
  apply aborts_bind; [|intros w3 b2 Hb2].
  { unfold open_ofstream. destruct (ofstream_good e); aborts. }
  assert (b2 = ofstream_good e) as ->.
  { revert Hb2. unfold open_ofstream. destruct (ofstream_good e); simpl; congruence. }
  apply aborts_bind; [|intros _ _ _; aborts].
  apply aborts_assert.
  intros Hbad (_ & _ & _ & _ & _ & Hg & _).
  destruct (Hg Hen) as (? & ? & _ & _ & He' & Hgood). congruence.
Qed.

Lemma add_simulation_nodes_aborts nodes topos :
  aborts_with (expected_failure config args) (add_simulation_nodes nodes topos).
Proof.
  revert topos. induction nodes as [|n nodes IH]; intros topos; simpl; aborts.
  apply IH.
Qed.

Lemma deal_with_simulation_nodes_aborts g :
  aborts_with (expected_failure config args) (deal_with_simulation_nodes args g).
Proof.
  unfold deal_with_simulation_nodes. aborts.
  destruct (simNodesJSONFile args) as [|c rest] eqn:Hfile; simpl; [aborts|].
  destruct (Json_parse_nodes (String c rest)) eqn:Hparse;
    [apply add_simulation_nodes_aborts|].
  intros w' f [= <-]. split; [|done].
  intros (_ & _ & _ & _ & _ & _ & Hs & _). unfold sim_nodes_ready in Hs.
  rewrite Hfile in Hs.
  destruct Hs as [? Hs]; [done|]. congruence.
Qed.

Lemma json_output_aborts g :
  aborts_with (expected_failure config args) (json_output config args g).
Proof.
  unfold json_output. destruct (jsonOutputEnabled args) eqn:Hen; [|aborts].
  cbv zeta.
  apply aborts_bind; [|intros _ name _].
  { apply aborts_config_get.
    intros Hn (_ & _ & _ & _ & _ & _ & _ & Hj).
    destruct (Hj Hen) as [[? Hn'] _]. congruence. }
  apply aborts_bind; [|intros _ pretty _; aborts].
  apply aborts_config_get.
  intros Hp (_ & _ & _ & _ & _ & _ & _ & Hj).
  destruct (Hj Hen) as [_ [? Hp']]. congruence.
Qed.

Lemma main_aborts :
  aborts_with (expected_failure config args) (main config args).
Proof.
  unfold main, reset_node_ids, build_and_output, create_delaunay_triangulation,
    create_beta_skeleton, import_submarine_cables, prune_stage.
  apply aborts_bind; [apply merge_node_sources_aborts | intros _ _ _].
  apply aborts_bind; [aborts | intros _ _ _].
  apply aborts_bind; [aborts | intros _ g0 _].
  apply aborts_bind; [apply kml_config_aborts | intros _ kml _].
  apply aborts_bind; [unfold kml_output; destruct (kmlOutputEnabled args); aborts
                     | intros _ _ _].
  apply aborts_bind; [aborts | intros _ g1 _].
  apply aborts_bind; [| intros _ g2 _].
  { unfold apply_density_filter.
    apply aborts_bind; [|intros _ enable _; destruct (Bool.eqb _ _); aborts].
    apply aborts_config_get.
    intros Hn (_ & _ & _ & _ & He & _). rewrite Hn in He. by destruct He. }
  apply aborts_bind; [aborts | intros _ g3 _].
  apply aborts_bind; [aborts | intros _ g4 _].
  apply aborts_bind; [unfold kml_output; destruct (kmlOutputEnabled args); aborts
                     | intros _ _ _].
  apply aborts_bind; [apply graph_output_aborts | intros _ _ _].
  apply aborts_bind; [apply deal_with_simulation_nodes_aborts | intros _ topos _].
  apply aborts_bind; [apply json_output_aborts | intros _ _ _]. aborts.
Qed.


(** X17.  When the preconditions are met (every entry [main] reads is
    there with its type, both clustering passes have [minPts] of at least one
    and a radius above zero, the graph output files open, the
    simulation-node file parses), [main] itself raises nothing: a run either
    returns or ends in the failure of a collaborator call. *)
Theorem preconditions_met_only_collaborators_fail (w : World) :
  preconditions_met config args →
  is_done (outcome (main config args w)) = true
  ∨ ∃ e, outcome (main config args w) = Abort (CollaboratorFailed e)
         ∧ last (trace (main config args w)) = Some e.
Proof.
  intros Hpre. destruct (outcome (main config args w)) as [r|f] eqn:Ho; [by left|].
  right. destruct (main_aborts w f Ho) as [Hok Hlast].
  destruct (Hok Hpre) as [e ->]. exists e. split; [done|]. by apply Hlast.
Qed.

(** X18.  A run of [main] returns only when the preconditions are met:
    every entry [main] reads is there with its type, both clustering passes
    have [minPts] of at least one and a radius above zero, the graph output
    files open when graph output is enabled, and the simulation-node file
    parses when one is named. *)
Theorem returning_run_met_preconditions (w : World) :
  is_done (outcome (main config args w)) = true → preconditions_met config args.
Proof.
  intros Hd. destruct (outcome (main config args w)) as [[g st]|f] eqn:Ho; [|done].
  apply main_returns in Ho as (wm & g0 & kml & g1 & g2 & ni' & g3 & g4 & st0 & Hm).
  apply Hm.
Qed.

End Failures.

(** ** The further properties on concrete runs *)

Module Cases.
Import Demo Scenarios.

Ltac by_computation := apply (bool_decide_unpack _); vm_compute; exact I.

Lemma demo_returns :
  ∃ g st, outcome (main config args world) = Done (g, st).
Proof. eexists _, _. vm_compute. reflexivity. Qed.

Lemma demo_preconditions_met : preconditions_met config args.
Proof.
  unfold preconditions_met. split_and!.
  - eexists. vm_compute. reflexivity.
  - exists 3%N, 50%float. split_and!; [vm_compute; reflexivity | done | vm_compute; reflexivity..].
  - exists 5%N, 200%float. split_and!; [vm_compute; reflexivity | done | vm_compute; reflexivity..].
  - exists kml. unfold kml_config_read. split_and!; vm_compute; reflexivity.
  - eexists. vm_compute. reflexivity.
  - intros _. exists "nodes.txt", "edges.txt". split_and!; vm_compute; reflexivity.
  - intros _. eexists. vm_compute. reflexivity.
  - intros _. split; eexists; vm_compute; reflexivity.
Qed.

(** X3 on the concrete run: the neighbour filter is called (call 1). *)
Lemma optics_valid_config_witness : valid_clustering_config config Neighbour.
Proof.
  apply (optics_called_only_with_valid_config config args Neighbour world).
  left. apply list_elem_of_lookup_2 with 1. vm_compute. reflexivity.
Defined.

(** X2 on the concrete run, whose merge phase returns. *)
Lemma merge_phase_witness :
  ∃ nN dN l1,
    get_uint config "neighbourCluster.minPts" = Some nN
    ∧ get_double config "neighbourCluster.maxClusterDistance" = Some dN
    ∧ OPTICSFilter_filter (dN / Cxx.EARTH_RADIUS_KM) nN
        (0.8 * (dN / Cxx.EARTH_RADIUS_KM)) (getSeed args) l1
      ≠ None.
Proof.
  destruct (merge_phase_dataflow config args world
              (final (merge_node_sources config args world)))
    as (ni1 & nN & dN & l1 & nM & dM & l2 & ni3 & ni4 & Hm).
  - split; [vm_compute; reflexivity | reflexivity].
  - destruct Hm as (_ & HnN & HdN & Hl1 & _).
    exists nN, dN, (locations ni1).
    refine (conj HnN (conj HdN _)). rewrite Hl1. discriminate.
Defined.

(** X9 on the concrete run: the records of the file are inserted into the
    topology built from the pruned graph. *)
Lemma returned_graph_witness :
  ∃ g st g4 st0 nodes,
    outcome (main config args world) = Done (g, st)
    ∧ SimulationTopology_new g4 = Some st0
    ∧ Json_parse_nodes (simNodesJSONFile args) = Some nodes
    ∧ add_nodes nodes (st0, g4) = Some (st, g).
Proof.
  destruct demo_returns as (g & st & Ho).
  destruct (returned_graph_composition config args world g st Ho)
    as (wm & g0 & g1 & g2 & ni' & g3 & g4 & st0 & Hm).
  destruct Hm as (_ & _ & _ & _ & _ & _ & Hs & Hsim & _).
  destruct (decide (simNodesJSONFile args = "")) as [Hfile|_]; [discriminate Hfile|].
  destruct Hsim as (nodes & Hparse & Hadd).
  exists g, st, g4, st0, nodes.
  exact (conj Ho (conj Hs (conj Hparse Hadd))).
Defined.

(** X10 on the concrete run: every output is enabled, seven writes. *)
Lemma returned_files_witness :
  length (files (final (main config args world))) = 7.
Proof.
  destruct demo_returns as (g & st & Ho).
  destruct (returned_files config args world g st Ho)
    as (wm & g0 & g3 & g4 & kml' & _ & _ & _ & _ & _ & Hf).
  rewrite Hf. vm_compute. reflexivity.
Defined.


(** X8 on a configuration without [gabrielFile], with KML output
    disabled. *)
Lemma kml_config_incomplete_witness :
  is_abort
    (outcome (main (config_without "kml_graph_output.gabrielFile") args_no_output world))
  = true.
Proof.
  apply (kml_config_incomplete_aborts
           (config_without "kml_graph_output.gabrielFile") args_no_output world).
  left. exists "gabrielFile". split; [by_computation | vm_compute; reflexivity].
Defined.

(** X5 on a store and the same store with every identifier set to 5. *)
Lemma reset_ids_forgets_witness :
  reset_ids twice_stored = reset_ids (relabelled 5 twice_stored).
Proof.
  apply (reset_ids_forgets_old_ids twice_stored (relabelled 5 twice_stored)).
  - reflexivity.
  - intros p. unfold relabelled. cbn [heap]. rewrite lookup_fmap.
    by destruct (heap twice_stored !! p).
  - intros p Hp. unfold relabelled. cbn [heap]. rewrite lookup_fmap.
    assert (heap twice_stored !! p = None) as ->; [|done].
    unfold twice_stored in *. cbn [heap order] in *.
    rewrite !not_elem_of_cons in Hp. destruct Hp as (? & ? & _).
    rewrite lookup_insert_ne by done. by apply lookup_singleton_ne.
Defined.

(** X11 on the run without outputs. *)
Lemma no_output_witness :
  files (final (main config args_no_output world)) = [].
Proof.
  apply (no_output_enabled_no_file_written config args_no_output world);
    reflexivity.
Defined.

(** X12 on a node file, then an edge file, that cannot be opened. *)
Lemma graph_output_open_failure_witness :
  graph_output (config_with "simple_graph_output.nodeFile" (CfgString ""))
    args square_graph world
  = {| outcome := Abort (AssertionFailed "nodeFile.good()");
       final := world; trace := [] |}
  ∧ graph_output (config_with "simple_graph_output.edgeFile" (CfgString ""))
      args square_graph world
    = {| outcome := Abort (AssertionFailed "edgeFile.good()");
         final := with_file "nodes.txt" OutEmpty world; trace := [] |}.
Proof.
  split.
  - apply (graph_output_open_failure
             (config_with "simple_graph_output.nodeFile" (CfgString ""))
             args square_graph world "");
      vm_compute; reflexivity.
  - apply (proj2 (graph_output_open_failure
             (config_with "simple_graph_output.edgeFile" (CfgString ""))
             args square_graph world "nodes.txt" eq_refl eq_refl) "");
      vm_compute; reflexivity.
Defined.

(** X15 on a configuration without [filename], with [cli.json] on the
    command line. *)
Lemma json_filename_required_witness :
  is_abort
    (outcome (main (config_without "json_graph_output.filename") args world))
  = true.
Proof.
  apply (json_filename_required
           (config_without "json_graph_output.filename") args world).
  - reflexivity.
  - vm_compute. reflexivity.
Defined.

(** X7 on the store that holds its first node again at position 2: the
    node leaves with identifier 2. *)
Lemma reset_ids_last_position_witness :
  node_id <$> heap (reset_ids twice_stored) !! 1%positive = Some 2%Z.
Proof.
  rewrite (reset_ids_last_position twice_stored 2 1).
  - reflexivity.
  - reflexivity.
  - by_computation.
  - vm_compute. discriminate.
Defined.


(** X17 on the concrete configuration and command line. *)
Lemma preconditions_met_witness :
  is_done (outcome (main config args world)) = true
  ∨ ∃ e, outcome (main config args world) = Abort (CollaboratorFailed e)
         ∧ last (trace (main config args world)) = Some e.
Proof.
  apply (preconditions_met_only_collaborators_fail config args world).
  apply demo_preconditions_met.
Defined.

(** X18 on the concrete run, which returns. *)
Lemma returning_run_witness : preconditions_met config args.
Proof.
  apply (returning_run_met_preconditions config args world).
  vm_compute. reflexivity.
Defined.

End Cases.
